(** * Remote-control backend: session registry, command dispatch, idle reaper

    A shallow embedding of [src/server.js] (the WebSocket part, lines
    472-610): the [sessions] map, [generateSessionId], the cleanup sweep
    run by [setInterval], and the [connection] / [message] / [close] /
    [error] handlers.

    Modelling conventions.
    - JavaScript numbers that the server handles are pixel and millisecond
      quantities; they are modelled as integers ([Z]) extended with [NaN].
    - An inbound message is given by the outcome of [JSON.parse]: [None]
      when it throws, [Some data] when it returns [data].
    - [robotjs] is an external native module: it is an interface
      ([Robot]), every call of which may return or throw.
    - A template literal and the operator [+] convert an array or object
      operand to a string, which throws a TypeError for an object with an
      own property named [toString] (no value of a parsed message can be
      called) and for an array with such an element; the statements that
      log with a template literal are therefore statements that can
      throw.
    - [sessions] is a [Map]: a finite map together with the order in
      which its keys were inserted, which is the order of iteration.
    - Every [Date.now()] / [new Date()] reading is an input of the event
      that performs it.
    - Node runs each callback to completion before the next one starts, so
      one handler invocation is one transition of the server state. *)

From stdpp Require Import gmap strings list fin_maps pretty.
From Stdlib Require Import ZArith Lia Ascii.

Local Open Scope Z_scope.
Local Set Warnings "-register-all".

(** ** JSON values and the JavaScript operations the handlers apply to them *)

Inductive json : Type :=
  | JNull
  | JBool (b : bool)
  | JNum (n : Z)
  | JStr (s : string)
  | JArr (elems : list json)
  | JObj (props : list (string * json)).

(** The value of an expression: [None] is [undefined]. *)
Abbreviation jsval := (option json).
Abbreviation undefined := (@None json).

Inductive jsnum : Type :=
  | Num (z : Z)
  | NaN.

Global Instance jsnum_eq_dec : EqDecision jsnum.
Proof. solve_decision. Defined.

(** Own properties of a parsed object, first binding of the name. *)
Fixpoint assoc (name : string) (props : list (string * json)) : jsval :=
  match props with
  | [] => undefined
  | (k, v) :: rest => if decide (k = name) then Some v else assoc name rest
  end.

(** [data.name] for one of the names the handler reads ([type],
    [sessionId], [deltaX], [deltaY]); none of them is defined on a
    prototype, so they are [undefined] on numbers, booleans, strings and
    arrays.  Reading a property of [null] throws a TypeError: the outer
    [None]. *)
Definition get_prop (data : json) (name : string) : option jsval :=
  match data with
  | JNull => None
  | JObj props => Some (assoc name props)
  | _ => Some undefined
  end.

(** ToBoolean. *)
Definition truthy (v : jsval) : bool :=
  match v with
  | None => false
  | Some JNull => false
  | Some (JBool b) => b
  | Some (JNum n) => negb (n =? 0)
  | Some (JStr s) => negb (String.eqb s "")
  | Some (JArr _) => true
  | Some (JObj _) => true
  end.

(** [v || 0]. *)
Definition or_zero (v : jsval) : jsval :=
  if truthy v then v else Some (JNum 0).

(** [data.type === 'name']. *)
Definition is_type (ty : jsval) (name : string) : bool :=
  match ty with
  | Some (JStr s) => String.eqb s name
  | _ => false
  end.

Arguments truthy : simpl never.
Arguments is_type : simpl never.
Arguments get_prop : simpl never.

(** ToString of a parsed value throws a TypeError.  An object with an
    own property [toString] has no callable [toString], and its
    [valueOf] is an own property, which cannot be called either, or the
    inherited one, which returns the object itself; an array is joined,
    which converts every element that is not [null]; any other object
    prints as [[object Object]]. *)
Fixpoint to_string_throws (j : json) : bool :=
  match j with
  | JObj props =>
      match assoc "toString" props with
      | Some _ => true
      | None => false
      end
  | JArr elems => existsb to_string_throws elems
  | _ => false
  end.

(** [`${v}`] returns a string. *)
Definition prints (v : jsval) : bool :=
  match v with
  | None => true
  | Some j => negb (to_string_throws j)
  end.

Definition math_min (a b : jsnum) : jsnum :=
  match a, b with
  | Num x, Num y => Num (Z.min x y)
  | _, _ => NaN
  end.

Definition math_max (a b : jsnum) : jsnum :=
  match a, b with
  | Num x, Num y => Num (Z.max x y)
  | _, _ => NaN
  end.

Section Coercion.
(** [Number(String(p) + String(v))] for an integer [p] and a string,
    array or object [v]: the string concatenation that [p + v] performs
    on such an operand, read back as a number by [Math.min].  A built-in
    of the language, left abstract. *)
Variable concat_to_number : Z → json → jsnum.

(** The number that [Math.min(bound, p + v)] sees for its second
    argument; [None] when [p + v] throws, which it does when the
    conversion of the array or object [v] to a primitive throws. *)
Definition plus_as_number (p : Z) (v : jsval) : option jsnum :=
  match v with
  | None => Some NaN
  | Some JNull => Some (Num (p + 0))
  | Some (JBool b) => Some (Num (p + (if b then 1 else 0)))
  | Some (JNum d) => Some (Num (p + d))
  | Some ((JStr _ | JArr _ | JObj _) as j) =>
      if to_string_throws j then None else Some (concat_to_number p j)
  end.

(** [Math.max(0, Math.min(bound, p + v))], lines 565-566; [None] when
    the evaluation throws. *)
Definition clamp_expr (bound p : Z) (v : jsval) : option jsnum :=
  (λ sum, math_max (Num 0) (math_min (Num bound) sum)) <$> plus_as_number p v.
End Coercion.
Arguments clamp_expr : simpl never.

(** ** The pointer capability ([robotjs]) *)

Record screen_size := { width : Z; height : Z }.
Record point := { x : Z; y : Z }.

(** What a call does: it returns or it throws, in a new capability state. *)
Inductive outcome (R : Type) : Type :=
  | Returns (r : R)
  | Throws (r : R).
Arguments Returns {R} r.
Arguments Throws {R} r.

(** The operations of [robotjs] that the server uses, on a capability
    state [R].  The two queries return; a command returns or throws. *)
Class Robot (R : Type) := {
  getScreenSize : R → screen_size;
  getMousePos : R → point;
  moveMouse : jsnum → jsnum → R → outcome R;
  mouseClick : option string → R → outcome R;
  scrollMouse : jsval → jsval → R → outcome R;
}.

(** A capability that honours a move to integer coordinates. *)
Class RobotMoves (R : Type) `{Robot R} := {
  moveMouse_returns nx ny r : ∃ r', moveMouse (Num nx) (Num ny) r = Returns r';
  moveMouse_pos nx ny r r' :
    moveMouse (Num nx) (Num ny) r = Returns r' →
    getMousePos r' = {| x := nx; y := ny |};
  moveMouse_screen nx ny r r' :
    moveMouse (Num nx) (Num ny) r = Returns r' →
    getScreenSize r' = getScreenSize r;
}.

(** ** Sessions *)

(** Keys of the [sessions] map and values of [session.id] / [ws.sessionId]:
    the generated strings, and whatever truthy value a client sent as
    [sessionId].  An array or object is a key by identity; [KObj] carries
    the stamp of the parsed value and whether the value prints, that is,
    whether its conversion to a string returns. *)
Inductive session_key : Type :=
  | KStr (s : string)
  | KNum (n : Z)
  | KBool (b : bool)
  | KObj (stamp : nat) (printable : bool).

Global Instance session_key_eq_dec : EqDecision session_key.
Proof. solve_decision. Defined.

Global Instance session_key_countable : Countable session_key.
Proof.
  refine (inj_countable'
    (λ k, match k with
          | KStr s => inl s
          | KNum n => inr (inl n)
          | KBool b => inr (inr (inl b))
          | KObj a p => inr (inr (inr (a, p)))
          end)
    (λ e, match e with
          | inl s => KStr s
          | inr (inl n) => KNum n
          | inr (inr (inl b)) => KBool b
          | inr (inr (inr (a, p))) => KObj a p
          end) _).
  by intros [].
Defined.

Definition key_truthy (k : session_key) : bool :=
  match k with
  | KStr s => negb (String.eqb s "")
  | KNum n => negb (n =? 0)
  | KBool b => b
  | KObj _ _ => true
  end.

(** [`${k}`] returns a string. *)
Definition key_prints (k : session_key) : bool :=
  match k with
  | KObj _ printable => printable
  | _ => true
  end.

(** The key a [data.sessionId] denotes; [stamp] is the identity of the
    value when it is an array or an object.  The handler only uses a
    truthy [data.sessionId], hence never [null]. *)
Definition key_of_json (stamp : nat) (j : json) : session_key :=
  match j with
  | JStr s => KStr s
  | JNum n => KNum n
  | JBool b => KBool b
  | JNull => KBool false
  | JArr _ | JObj _ => KObj stamp (negb (to_string_throws j))
  end.

(** A connection handle ([ws]). *)
Abbreviation conn := nat.

Inductive ready_state := CONNECTING | OPEN | CLOSING | CLOSED.

Global Instance ready_state_eq_dec : EqDecision ready_state.
Proof. solve_decision. Defined.

Record socket := {
  ws_sessionId : session_key;
  readyState : ready_state;
}.

Record session := {
  id : session_key;
  ws : conn;
  ip : string;
  connectedAt : Z;
  lastActivity : Z;
}.

Definition set_lastActivity (t : Z) (s : session) : session :=
  {| id := id s; ws := ws s; ip := ip s;
     connectedAt := connectedAt s; lastActivity := t |}.

Definition set_id (k : session_key) (s : session) : session :=
  {| id := k; ws := ws s; ip := ip s;
     connectedAt := connectedAt s; lastActivity := lastActivity s |}.

(** Lines written to the console. *)
Inductive log_line : Type :=
  | LogNewSession (k : session_key) (addr : string) (total : nat)
  | LogReceived (k : session_key) (ty : jsval)
  | LogRobotUnavailable
  | LogSessionIdUpdated (old : session_key) (new : jsval)
  | LogLeftClick (k : session_key)
  | LogRightClick (k : session_key)
  | LogScroll (k : session_key) (dx dy : jsval)
  | LogErrorProcessing
  | LogSessionEnded (k : session_key) (seconds : Z)
  | LogRemaining (total : nat)
  | LogWebSocketError (k : session_key)
  | LogCleaning (k : session_key) (seconds : Z)
  | LogCleaned (count : Z) (total : nat).

Definition SESSION_TIMEOUT : Z := 30 * 60 * 1000.

(** [Math.round(ms / 1000)]. *)
Definition round_seconds (ms : Z) : Z := (2 * ms + 1000) `div` 2000.

(** ** The server *)

(** How a statement completes: normally with a value, or abruptly by a
    thrown exception. *)
Inductive completion (A : Type) : Type :=
  | Normal (a : A)
  | Abrupt.
Arguments Normal {A} a.
Arguments Abrupt {A}.

Section Server.
Context {R : Type} `{!Robot R}.
Variable concat_to_number : Z → json → jsnum.

(** The module-level variables of [server.js], the sockets the server
    has accepted, and the console.  The [Map] of the sessions is its
    entries, [sessions], and its keys in the order of their insertion,
    [order]. *)
Record server := {
  robot : option R;
  sessions : gmap session_key session;
  order : list session_key;
  sessionIdCounter : Z;
  connectedClients : Z;
  sockets : gmap conn socket;
  next_stamp : nat;
  console : list log_line;
}.

Definition initial (r : option R) : server :=
  {| robot := r; sessions := ∅; order := []; sessionIdCounter := 0;
     connectedClients := 0; sockets := ∅; next_stamp := 0;
     console := [] |}.

(** *** Statements: a state monad with exceptions *)

Definition js (A : Type) : Type := server → completion A * server.

Definition ret {A} (a : A) : js A := λ st, (Normal a, st).
Definition throw {A} : js A := λ st, (Abrupt, st).
Definition bind {A B} (m : js A) (k : A → js B) : js B :=
  λ st, match m st with
        | (Normal a, st') => k a st'
        | (Abrupt, st') => (Abrupt, st')
        end.
Definition try_catch (body handler : js unit) : js unit :=
  λ st, match body st with
        | (Normal a, st') => (Normal a, st')
        | (Abrupt, st') => handler st'
        end.
Definition read {A} (f : server → A) : js A := λ st, (Normal (f st), st).
Definition modify (f : server → server) : js unit := λ st, (Normal tt, f st).

#[local] Instance js_ret : MRet js := @ret.
#[local] Instance js_bind : MBind js := λ A B k m, bind m k.

(** The evaluation of an expression that may throw. *)
Definition eval {A} (v : option A) : js A :=
  match v with
  | Some a => ret a
  | None => throw
  end.

(** The conversion to a string of a value that a template literal
    interpolates; [returns] tells whether it returns. *)
Definition interpolate (returns : bool) : js unit :=
  if returns then ret tt else throw.

(** *** Assignments to the module-level variables *)

(** An assignment to a field of a record of the map: the entries
    change, the order of the keys does not. *)
Definition with_sessions (f : gmap session_key session → gmap session_key session)
    (st : server) : server :=
  {| robot := robot st; sessions := f (sessions st); order := order st;
     sessionIdCounter := sessionIdCounter st;
     connectedClients := connectedClients st; sockets := sockets st;
     next_stamp := next_stamp st; console := console st |}.

(** [sessions.set(k, s)]: a new key goes to the end of the order, a key
    of the map keeps its place. *)
Definition sessions_set (k : session_key) (s : session) (st : server)
    : server :=
  {| robot := robot st; sessions := <[k:=s]> (sessions st);
     order := if decide (is_Some (sessions st !! k)) then order st
              else order st ++ [k];
     sessionIdCounter := sessionIdCounter st;
     connectedClients := connectedClients st; sockets := sockets st;
     next_stamp := next_stamp st; console := console st |}.

(** [sessions.delete(k)]. *)
Definition sessions_delete (k : session_key) (st : server) : server :=
  {| robot := robot st; sessions := delete k (sessions st);
     order := filter (λ k', k' ≠ k) (order st);
     sessionIdCounter := sessionIdCounter st;
     connectedClients := connectedClients st; sockets := sockets st;
     next_stamp := next_stamp st; console := console st |}.

Definition with_sockets (f : gmap conn socket → gmap conn socket)
    (st : server) : server :=
  {| robot := robot st; sessions := sessions st; order := order st;
     sessionIdCounter := sessionIdCounter st;
     connectedClients := connectedClients st; sockets := f (sockets st);
     next_stamp := next_stamp st; console := console st |}.

Definition with_robot (r : R) (st : server) : server :=
  {| robot := Some r; sessions := sessions st; order := order st;
     sessionIdCounter := sessionIdCounter st;
     connectedClients := connectedClients st; sockets := sockets st;
     next_stamp := next_stamp st; console := console st |}.

Definition with_counter (n : Z) (st : server) : server :=
  {| robot := robot st; sessions := sessions st; order := order st;
     sessionIdCounter := n;
     connectedClients := connectedClients st; sockets := sockets st;
     next_stamp := next_stamp st; console := console st |}.

Definition with_clients (n : Z) (st : server) : server :=
  {| robot := robot st; sessions := sessions st; order := order st;
     sessionIdCounter := sessionIdCounter st;
     connectedClients := n; sockets := sockets st;
     next_stamp := next_stamp st; console := console st |}.

Definition with_stamp (n : nat) (st : server) : server :=
  {| robot := robot st; sessions := sessions st; order := order st;
     sessionIdCounter := sessionIdCounter st;
     connectedClients := connectedClients st; sockets := sockets st;
     next_stamp := n; console := console st |}.

(** The console receives a line; the strings the line is built from have
    been computed by then. *)
Definition console_log (l : log_line) (st : server) : server :=
  {| robot := robot st; sessions := sessions st; order := order st;
     sessionIdCounter := sessionIdCounter st;
     connectedClients := connectedClients st; sockets := sockets st;
     next_stamp := next_stamp st; console := console st ++ [l] |}.

(** [ws.sessionId = k]. *)
Definition set_ws_sessionId (k : session_key) (so : socket) : socket :=
  {| ws_sessionId := k; readyState := readyState so |}.

Definition set_readyState (rs : ready_state) (so : socket) : socket :=
  {| ws_sessionId := ws_sessionId so; readyState := rs |}.

(** [ws.close()] of the [ws] package on a socket: an open socket starts
    the closing handshake. *)
Definition ws_close (so : socket) : socket :=
  match readyState so with
  | OPEN => set_readyState CLOSING so
  | _ => so
  end.

(** A call of the capability [r], the value of [robot]. *)
Definition robot_call (r : R) (f : R → outcome R) : js unit :=
  match f r with
  | Returns r' => modify (with_robot r')
  | Throws r' => modify (with_robot r');; throw
  end.

(** [data.name] as a statement. *)
Definition prop (data : json) (name : string) : js jsval :=
  eval (get_prop data name).

(** *** [generateSessionId], lines 477-479 *)

Definition generateSessionId (now : Z) : js session_key :=
  modify (λ st, with_counter (sessionIdCounter st + 1) st);;
  n ← read sessionIdCounter;
  ret (KStr ("session_" +:+ pretty n +:+ "_" +:+ pretty now)).

(** *** The [connection] handler, lines 511-529

    [c] is the new socket, open, and [addr] its remote address; the
    three clock readings are those of [generateSessionId] and of the two
    [new Date()].  The three lines logged interpolate strings and a
    number. *)
Definition on_connection (c : conn) (addr : string)
    (t_id t_connected t_active : Z) : js unit :=
  modify (λ st, with_clients (connectedClients st + 1) st);;
  sessionId ← generateSessionId t_id;
  let clientSession :=
    {| id := sessionId; ws := c; ip := addr;
       connectedAt := t_connected; lastActivity := t_active |} in
  modify (sessions_set sessionId clientSession);;
  modify (with_sockets
            (insert c {| ws_sessionId := sessionId; readyState := OPEN |}));;
  total ← read (λ st, size (sessions st));
  modify (console_log (LogNewSession sessionId addr total)).

(** *** The [message] handler, lines 531-590 *)

(** [case 'setSessionId'], lines 547-557.  [k] is [ws.sessionId] and
    [s] the current value of the record [session], stored at [k].  The
    log of line 555 comes last: when it throws the rename has been
    done. *)
Definition case_setSessionId (c : conn) (k : session_key) (s : session)
    (data : json) : js unit :=
  sid ← prop data "sessionId";
  match sid with
  | Some j =>
      if truthy sid then
        stamp ← read next_stamp;
        modify (with_stamp (S stamp));;
        let newId := key_of_json stamp j in
        let oldSessionId := id s in
        let s' := set_id newId s in
        modify (with_sessions (insert k s'));;
        modify (sessions_delete k);;
        modify (sessions_set newId s');;
        modify (with_sockets (alter (set_ws_sessionId newId) c));;
        interpolate (key_prints oldSessionId);;
        interpolate (prints sid);;
        modify (console_log (LogSessionIdUpdated oldSessionId sid))
      else ret tt
  | None => ret tt
  end.

(** [case 'move'], lines 559-569. *)
Definition case_move (r : R) (data : json) : js unit :=
  let screenSize := getScreenSize r in
  let currentPos := getMousePos r in
  deltaX ← prop data "deltaX";
  newX ← eval (clamp_expr concat_to_number (width screenSize - 1)
                 (x currentPos) deltaX);
  deltaY ← prop data "deltaY";
  newY ← eval (clamp_expr concat_to_number (height screenSize - 1)
                 (y currentPos) deltaY);
  robot_call r (moveMouse newX newY).

(** The [switch (data.type)], lines 546-585. *)
Definition dispatch (c : conn) (k : session_key) (s : session) (r : R)
    (data : json) (ty : jsval) : js unit :=
  if is_type ty "setSessionId" then case_setSessionId c k s data
  else if is_type ty "move" then case_move r data
  else if is_type ty "click" then
    robot_call r (mouseClick None);;
    interpolate (key_prints (id s));;
    modify (console_log (LogLeftClick (id s)))
  else if is_type ty "rightClick" then
    robot_call r (mouseClick (Some "right"));;
    interpolate (key_prints (id s));;
    modify (console_log (LogRightClick (id s)))
  else if is_type ty "scroll" then
    deltaX ← prop data "deltaX";
    deltaY ← prop data "deltaY";
    robot_call r (scrollMouse (or_zero deltaX) (or_zero deltaY));;
    interpolate (key_prints (id s));;
    interpolate (prints deltaX);;
    interpolate (prints deltaY);;
    modify (console_log (LogScroll (id s) deltaX deltaY))
  else ret tt.

(** The body of the [try].  Line 537 writes [lastActivity] before line
    538 builds its string from [session.id] and [data.type]. *)
Definition message_body (c : conn) (message : option json) (now : Z)
    : js unit :=
  data ← eval message;
  so ← read (λ st, sockets st !! c);
  match so with
  | None => ret tt
  | Some so =>
      let k := ws_sessionId so in
      session ← read (λ st, sessions st !! k);
      match session with
      | None => ret tt
      | Some s0 =>
          let s := set_lastActivity now s0 in
          modify (with_sessions (insert k s));;
          interpolate (key_prints (id s));;
          ty ← prop data "type";
          interpolate (prints ty);;
          modify (console_log (LogReceived (id s) ty));;
          rb ← read robot;
          match rb with
          | None => modify (console_log LogRobotUnavailable)
          | Some r => dispatch c k s r data ty
          end
      end
  end.

Definition on_message (c : conn) (message : option json) (now : Z)
    : js unit :=
  try_catch (message_body c message now)
            (modify (console_log LogErrorProcessing)).

(** *** The [close] handler, lines 592-601; the socket is closed when
    the event is emitted.  Line 596 builds its string from [session.id]
    before line 598 deletes the entry, outside any [try]. *)
Definition on_close (c : conn) (now : Z) : js unit :=
  modify (with_sockets (alter (set_readyState CLOSED) c));;
  modify (λ st, with_clients (connectedClients st - 1) st);;
  so ← read (λ st, sockets st !! c);
  match so with
  | None => ret tt
  | Some so =>
      let k := ws_sessionId so in
      session ← read (λ st, sessions st !! k);
      match session with
      | None => ret tt
      | Some s =>
          interpolate (key_prints (id s));;
          modify (console_log
                    (LogSessionEnded (id s)
                       (round_seconds (now - connectedAt s))));;
          modify (sessions_delete k)
      end
  end;;
  total ← read (λ st, size (sessions st));
  modify (console_log (LogRemaining total)).

(** *** The [error] handler, lines 603-609; line 604 builds its string
    from [ws.sessionId] before the test of line 606. *)
Definition on_error (c : conn) : js unit :=
  so ← read (λ st, sockets st !! c);
  match so with
  | None => ret tt
  | Some so =>
      let k := ws_sessionId so in
      interpolate (key_prints k);;
      modify (console_log (LogWebSocketError k));;
      has ← read (λ st, bool_decide (is_Some (sessions st !! k)));
      if key_truthy k && has then modify (sessions_delete k)
      else ret tt
  end.

(** *** The cleanup sweep, lines 482-501

    The [for ... of] loop visits the entries of the map in the order of
    their insertion; the body deletes no entry but the one it is
    visiting, so the entries visited are those of the keys the map has
    when the loop starts.  Line 489 builds its string from the key before
    the socket is closed and the entry deleted, outside any [try]: when
    it throws, the loop and the callback end there. *)

(** The loop over the keys that remain to be visited; the value is
    [cleanedCount]. *)
Fixpoint sweep_loop (now : Z) (keys : list session_key) (cleanedCount : Z)
    : js Z :=
  match keys with
  | [] => ret cleanedCount
  | sessionId :: rest =>
      entry ← read (λ st, sessions st !! sessionId);
      match entry with
      | None => sweep_loop now rest cleanedCount
      | Some session =>
          let inactiveTime := now - lastActivity session in
          if decide (inactiveTime > SESSION_TIMEOUT) then
            interpolate (key_prints sessionId);;
            modify (console_log
                      (LogCleaning sessionId (round_seconds inactiveTime)));;
            modify (with_sockets (alter ws_close (ws session)));;
            modify (sessions_delete sessionId);;
            sweep_loop now rest (cleanedCount + 1)
          else sweep_loop now rest cleanedCount
      end
  end.

Definition sweep (now : Z) : js unit :=
  keys ← read order;
  cleanedCount ← sweep_loop now keys 0;
  if decide (cleanedCount > 0) then
    total ← read (λ st, size (sessions st));
    modify (console_log (LogCleaned cleanedCount total))
  else ret tt.

(** *** The event loop *)

Inductive event : Type :=
  | Connection (c : conn) (addr : string) (t_id t_connected t_active : Z)
  | Message (c : conn) (message : option json) (now : Z)
  | Close (c : conn) (now : Z)
  | Error (c : conn)
  | Sweep (now : Z).

Definition handler (e : event) : js unit :=
  match e with
  | Connection c addr t1 t2 t3 => on_connection c addr t1 t2 t3
  | Message c message now => on_message c message now
  | Close c now => on_close c now
  | Error c => on_error c
  | Sweep now => sweep now
  end.

(** The state in which one callback leaves the server, whether it
    returns or throws.  The [message] handler catches what its body
    throws; the [close] and [error] handlers and the sweep do not, and
    what the process does with an exception that escapes a callback is
    outside the model: [run] goes on from the state the callback
    leaves. *)
Definition step (st : server) (e : event) : server := (handler e st).2.

Definition run (st : server) (evs : list event) : server :=
  foldl step st evs.
End Server.

(** ** Strings

    [pieces.join(',')]. *)
Fixpoint join_comma (pieces : list string) : string :=
  match pieces with
  | [] => EmptyString
  | [piece] => piece
  | piece :: rest => piece +:+ "," +:+ join_comma rest
  end.

(** ** A stub capability, for tests

    It holds the screen size and the pointer position, records the clicks
    and scrolls it is asked for, and refuses coordinates that are not
    numbers. *)

Inductive stub_action : Type :=
  | Clicked (button : option string)
  | Scrolled (dx dy : jsval).

Record stub := {
  stub_screen : screen_size;
  stub_pos : point;
  stub_actions : list stub_action;
}.

Global Instance stub_robot : Robot stub := {
  getScreenSize := stub_screen;
  getMousePos := stub_pos;
  moveMouse nx ny r :=
    match nx, ny with
    | Num a, Num b =>
        Returns {| stub_screen := stub_screen r;
                   stub_pos := {| x := a; y := b |};
                   stub_actions := stub_actions r |}
    | _, _ => Throws r
    end;
  mouseClick button r :=
    Returns {| stub_screen := stub_screen r; stub_pos := stub_pos r;
               stub_actions := stub_actions r ++ [Clicked button] |};
  scrollMouse dx dy r :=
    Returns {| stub_screen := stub_screen r; stub_pos := stub_pos r;
               stub_actions := stub_actions r ++ [Scrolled dx dy] |};
}.

Global Instance stub_moves : RobotMoves stub.
Proof.
  split.
  - intros nx ny r. eexists. reflexivity.
  - intros nx ny r r' [= <-]. reflexivity.
  - intros nx ny r r' [= <-]. reflexivity.
Qed.

(** The string concatenation of [p + v], for the stub: the decimal form
    of [p] followed by the string of [v], read back as a number the way
    [Number] reads a string (surrounding ASCII white space, a sign, a
    decimal literal with an optional fraction and exponent, or an
    unsigned literal with a radix prefix): [500 + "5"] is 5005, the
    empty text is 0 and a text that is no number is [NaN].  The numbers
    of this development are integers: a text whose value is not an
    integer, such as ["500.5"], and [Infinity] have no counterpart, and
    the stub answers [NaN] for them.  The scenarios below send no delta
    that is a string, an array or an object. *)

(** ToString of a value for which it returns. *)
Fixpoint to_string (j : json) : string :=
  match j with
  | JNull => "null"
  | JBool b => if b then "true" else "false"
  | JNum n => pretty n
  | JStr s => s
  | JArr elems =>
      join_comma
        (map (λ e, match e with JNull => "" | _ => to_string e end) elems)
  | JObj _ => "[object Object]"
  end.

Definition is_white_space (a : ascii) : bool :=
  let n := N_of_ascii a in
  ((9 <=? n) && (n <=? 13) || (n =? 32))%N.

Fixpoint trim_start (s : string) : string :=
  match s with
  | String a rest => if is_white_space a then trim_start rest else s
  | EmptyString => EmptyString
  end.

Definition trim_white_space (s : string) : string :=
  String.rev (trim_start (String.rev (trim_start s))).

(** The value of a digit in a base up to 16. *)
Definition digit_value (base : Z) (a : ascii) : option Z :=
  let n := Z.of_N (N_of_ascii a) in
  let d :=
    if (48 <=? n) && (n <=? 57) then n - 48
    else if (97 <=? n) && (n <=? 102) then n - 87
    else if (65 <=? n) && (n <=? 70) then n - 55
    else base in
  if d <? base then Some d else None.

(** The digits at the start of a text: their value, their number, and
    the rest of the text. *)
Fixpoint read_digits (base acc : Z) (count : nat) (s : string)
    : Z * nat * string :=
  match s with
  | String a rest =>
      match digit_value base a with
      | Some d => read_digits base (base * acc + d) (S count) rest
      | None => (acc, count, s)
      end
  | EmptyString => (acc, count, s)
  end.

(** A text made of digits of the base, at least one. *)
Definition read_radix (base : Z) (s : string) : jsnum :=
  match read_digits base 0 0 s with
  | (n, S _, EmptyString) => Num n
  | _ => NaN
  end.

(** The exponent part of a decimal literal, when the text has one. *)
Definition read_exponent (s : string) : option Z :=
  match s with
  | EmptyString => Some 0
  | String a rest =>
      if Ascii.eqb a "e" || Ascii.eqb a "E" then
        let '(negative, digits) :=
          match rest with
          | String "-" r => (true, r)
          | String "+" r => (false, r)
          | _ => (false, rest)
          end in
        match read_digits 10 0 0 digits with
        | (n, S _, EmptyString) => Some (if negative then - n else n)
        | _ => None
        end
      else None
  end.

(** An unsigned decimal literal: digits, an optional fraction, an
    optional exponent; [NaN] also when its value is not an integer. *)
Definition read_decimal (s : string) : jsnum :=
  let '(whole, whole_digits, after_whole) := read_digits 10 0 0 s in
  let '(mantissa, fraction_digits, after_fraction) :=
    match after_whole with
    | String "." r => read_digits 10 whole 0 r
    | _ => (whole, 0%nat, after_whole)
    end in
  match (whole_digits + fraction_digits)%nat, read_exponent after_fraction with
  | S _, Some exponent =>
      let scale := exponent - Z.of_nat fraction_digits in
      if 0 <=? scale then Num (mantissa * 10 ^ scale)
      else if mantissa `mod` 10 ^ (- scale) =? 0
           then Num (mantissa `div` 10 ^ (- scale))
           else NaN
  | _, _ => NaN
  end.

Definition read_unsigned (s : string) : jsnum :=
  match s with
  | String "0" (String a rest) =>
      if Ascii.eqb a "x" || Ascii.eqb a "X" then read_radix 16 rest
      else if Ascii.eqb a "o" || Ascii.eqb a "O" then read_radix 8 rest
      else if Ascii.eqb a "b" || Ascii.eqb a "B" then read_radix 2 rest
      else read_decimal s
  | _ => read_decimal s
  end.

Definition string_to_number (s : string) : jsnum :=
  match trim_white_space s with
  | EmptyString => Num 0
  | String "+" rest => read_decimal rest
  | String "-" rest =>
      match read_decimal rest with
      | Num n => Num (- n)
      | NaN => NaN
      end
  | text => read_unsigned text
  end.

Definition stub_concat (p : Z) (j : json) : jsnum :=
  string_to_number (pretty p +:+ to_string j).

Definition stub_at (w h px py : Z) : stub :=
  {| stub_screen := {| width := w; height := h |};
     stub_pos := {| x := px; y := py |};
     stub_actions := [] |}.

Definition msg_move (dx dy : Z) : json :=
  JObj [("type", JStr "move"); ("deltaX", JNum dx); ("deltaY", JNum dy)].

Definition msg_setSessionId (newId : string) : json :=
  JObj [("type", JStr "setSessionId"); ("sessionId", JStr newId)].

Definition two_clients (r : option stub) : server :=
  run stub_concat (initial r)
    [Connection 1%nat "10.0.0.1" 1000 1000 1000;
     Connection 2%nat "10.0.0.2" 2000 2000 2000].

(** ** The coordinate translator of the specification

    [clamp v lo hi] constrains [v] to the inclusive range [lo .. hi]. *)
Definition clamp (v lo hi : Z) : Z :=
  if v <? lo then lo else if hi <? v then hi else v.

(** ** The wire schema of the specification

    A well-formed command is a record with a [type] discriminator;
    [move] carries two numbers, [scroll] two optional numbers,
    [setSessionId] a string, [click] and [rightClick] nothing, and a
    record with any other tag decodes as an unknown command. *)

Definition is_number (v : jsval) : bool :=
  match v with Some (JNum _) => true | _ => false end.

Definition is_optional_number (v : jsval) : bool :=
  match v with None | Some (JNum _) => true | _ => false end.

Definition is_string (v : jsval) : bool :=
  match v with Some (JStr _) => true | _ => false end.

Definition well_formed_command (data : json) : bool :=
  match data with
  | JObj props =>
      match assoc "type" props with
      | Some (JStr ty) =>
          if String.eqb ty "move" then
            is_number (assoc "deltaX" props) && is_number (assoc "deltaY" props)
          else if String.eqb ty "scroll" then
            is_optional_number (assoc "deltaX" props)
            && is_optional_number (assoc "deltaY" props)
          else if String.eqb ty "setSessionId" then
            is_string (assoc "sessionId" props)
          else true
      | _ => false
      end
  | _ => false
  end.

(** A message that fails to parse as a well-formed command. *)
Definition ill_formed (message : option json) : Prop :=
  match message with
  | None => True
  | Some data => well_formed_command data = false
  end.

(** ** Statements

    The effect of a message on the registry, the invariant of the
    registry, and the claims of the specification that the properties
    below confirm or refute. *)

Section Statements.
Context {R : Type} `{!Robot R}.
Variable concat_to_number : Z → json → jsnum.

Implicit Types (st : server (R:=R)) (c : conn) (k : session_key)
  (s : session) (data : json) (now : Z) (r : R).

(** The three things a message can do to [sessions] and [sockets]:
    nothing, touch the session of the socket, or move it to a new key. *)
Inductive registry_effect c (message : option json) now st st' : Prop :=
  | effect_none :
      sessions st' = sessions st →
      sockets st' = sockets st →
      registry_effect c message now st st'
  | effect_touch so s :
      sockets st !! c = Some so →
      sessions st !! ws_sessionId so = Some s →
      is_Some message →
      sessions st'
      = <[ws_sessionId so := set_lastActivity now s]> (sessions st) →
      sockets st' = sockets st →
      registry_effect c message now st st'
  | effect_rename so s data j r :
      sockets st !! c = Some so →
      sessions st !! ws_sessionId so = Some s →
      message = Some data →
      robot st = Some r →
      get_prop data "type" = Some (Some (JStr "setSessionId")) →
      get_prop data "sessionId" = Some (Some j) →
      truthy (Some j) = true →
      let newId := key_of_json (next_stamp st) j in
      sessions st'
      = <[newId := set_id newId (set_lastActivity now s)]>
          (delete (ws_sessionId so) (sessions st)) →
      sockets st' = alter (set_ws_sessionId newId) c (sockets st) →
      registry_effect c message now st st'.

(** C3, as the specification states it: a rename to an id that denotes a
    different live session leaves both registry entries untouched. *)
Definition rename_rejects_duplicate st c (newId : string) now : Prop :=
  ∀ so s other,
    sockets st !! c = Some so →
    sessions st !! ws_sessionId so = Some s →
    sessions st !! KStr newId = Some other →
    ws_sessionId so ≠ KStr newId →
    let st' :=
      step concat_to_number st (Message c (Some (msg_setSessionId newId)) now) in
    (id <$> sessions st' !! ws_sessionId so) = Some (ws_sessionId so)
    ∧ sessions st' !! KStr newId = Some other.

(** C4, as the specification states it for [RenameSession]: without a
    capability a rename still takes effect. *)
Definition headless_rename_takes_effect st c (newId : string) now : Prop :=
  robot st = None →
  ∀ so s,
    sockets st !! c = Some so →
    sessions st !! ws_sessionId so = Some s →
    let st' :=
      step concat_to_number st (Message c (Some (msg_setSessionId newId)) now) in
    is_Some (sessions st' !! KStr newId)
    ∧ (ws_sessionId <$> sockets st' !! c) = Some (KStr newId).

(** C5, as the specification states it: a message that fails to parse as
    a well-formed command leaves every [lastActivity] as it was. *)
Definition drops_ill_formed st c (message : option json) now : Prop :=
  ill_formed message →
  sessions (step concat_to_number st (Message c message now)) = sessions st.



Definition expired now s : Prop := now - lastActivity s > SESSION_TIMEOUT.

Global Instance expired_dec now s : Decision (expired now s).
Proof. unfold expired. apply _. Defined.

(** What the loop body does to an expired entry whose key prints. *)
Definition evict (k : session_key) s (seconds : Z) st : server (R:=R) :=
  sessions_delete k
    (with_sockets (alter ws_close (ws s))
       (console_log (LogCleaning k seconds) st)).



(** The order of a map lists the keys of its entries, each once. *)
Definition lists_keys (m : gmap session_key session)
    (keys : list session_key) : Prop :=
  NoDup keys ∧ list_to_set keys = dom m.

(** [sessions] is a well-formed [Map], as it is in every state the
    server reaches. *)
Definition order_ok st : Prop := lists_keys (sessions st) (order st).

Global Instance order_ok_dec st : Decision (order_ok st).
Proof. unfold order_ok, lists_keys. apply _. Defined.

(** The key of every session that has expired at [now] prints, as every
    key that is a string does. *)
Definition expired_keys_print now st : Prop :=
  map_Forall (λ k s, expired now s → key_prints k = true) (sessions st).

Global Instance expired_keys_print_dec now st :
  Decision (expired_keys_print now st).
Proof. unfold expired_keys_print. apply _. Defined.

(** Every record is stored under its own [id]. *)
Definition keyed_by_id st : Prop :=
  ∀ k s, sessions st !! k = Some s → id s = k.

(** No two entries of the registry carry the same [id]. *)
Definition ids_pairwise_distinct st : Prop :=
  ∀ k1 k2 s1 s2,
    sessions st !! k1 = Some s1 →
    sessions st !! k2 = Some s2 →
    k1 ≠ k2 →
    id s1 ≠ id s2.

End Statements.

(** ** The scenarios of the specification, on the stub capability *)

(** Two clients connected, the pointer at (500, 500) on a 1920×1080
    screen. *)
Definition desk : server := two_clients (Some (stub_at 1920 1080 500 500)).

(** The same two clients on a server without the capability. *)
Definition headless : server := two_clients None.

Definition socket_1 : socket :=
  {| ws_sessionId := KStr "session_1_1000"; readyState := OPEN |}.

Definition socket_2 : socket :=
  {| ws_sessionId := KStr "session_2_2000"; readyState := OPEN |}.

Definition session_1 : session :=
  {| id := KStr "session_1_1000"; ws := 1%nat; ip := "10.0.0.1";
     connectedAt := 1000; lastActivity := 1000 |}.

Definition session_2 : session :=
  {| id := KStr "session_2_2000"; ws := 2%nat; ip := "10.0.0.2";
     connectedAt := 2000; lastActivity := 2000 |}.

Definition msg_click : json := JObj [("type", JStr "click")].



(** Client 2 is active at 1 800 000 ms, client 1 has been silent since
    1 000 ms; the sweep at 1 801 500 ms evicts client 1 only. *)
Definition idle_desk : server :=
  step stub_concat desk (Message 2%nat (Some msg_click) 1800000).






(** ** Further parts of [server.js] *)

(** The string [generateSessionId] builds from the counter and the clock. *)
Definition generated_id (n now : Z) : session_key :=
  KStr ("session_" +:+ pretty n +:+ "_" +:+ pretty now).

Definition is_connection (e : event) : bool :=
  match e with Connection _ _ _ _ _ => true | _ => false end.

Definition is_close (e : event) : bool :=
  match e with Close _ _ => true | _ => false end.

(** The amount a [scroll] field stands for when it is a number or is
    absent. *)
Definition scroll_amount (v : jsval) : Z :=
  match v with
  | Some (JNum n) => n
  | _ => 0
  end.

(** The five message types the [switch] knows. *)
Definition known_type (ty : jsval) : bool :=
  is_type ty "setSessionId" || is_type ty "move" || is_type ty "click"
  || is_type ty "rightClick" || is_type ty "scroll".

(** How many events of a trace satisfy [p]. *)
Definition count_events (p : event → bool) (evs : list event) : Z :=
  Z.of_nat (length (List.filter p evs)).

(** The string holds no underscore. *)
Fixpoint underscore_free (s : string) : bool :=
  match s with
  | EmptyString => true
  | String a rest => negb (Ascii.eqb a "_"%char) && underscore_free rest
  end.

(** Every key of the registry is a generated id whose counter part the
    server has already reached. *)
Definition keys_generated {R : Type} (st : server (R:=R)) : Prop :=
  ∀ k, is_Some (sessions st !! k) →
    ∃ n t, 1 ≤ n ≤ sessionIdCounter st ∧ k = generated_id n t.

(** *** [getNetworkIP], lines 58-68

    [os.networkInterfaces()] is given as the interface names in the order
    of [Object.keys], each with its list of addresses. *)

Record net_iface := {
  family : string;
  internal : bool;
  address : string;
}.

(** The test of the inner [if]. *)
Definition external_ipv4 (iface : net_iface) : bool :=
  String.eqb (family iface) "IPv4" && negb (internal iface).

(** The inner [for] loop: [Some] is an early [return]. *)
Fixpoint scan_ifaces (ifaces : list net_iface) : option string :=
  match ifaces with
  | [] => None
  | iface :: rest =>
      if external_ipv4 iface then Some (address iface) else scan_ifaces rest
  end.

Fixpoint getNetworkIP (interfaces : list (string * list net_iface)) : string :=
  match interfaces with
  | [] => "localhost"
  | (name, ifaces) :: rest =>
      match scan_ifaces ifaces with
      | Some a => a
      | None => getNetworkIP rest
      end
  end.

(** *** [getFrontendOrigins], lines 28-47 *)

(** An allowed origin: a literal string or a regular expression, given by
    its source text. *)
Inductive origin : Type :=
  | OriginString (s : string)
  | OriginRegExp (source : string).

(** [s.split(',')]. *)
Fixpoint split_comma (s : string) : list string :=
  match s with
  | EmptyString => [EmptyString]
  | String c rest =>
      if Ascii.eqb c ","%char then EmptyString :: split_comma rest
      else match split_comma rest with
           | [] => [String c EmptyString]
           | piece :: pieces => String c piece :: pieces
           end
  end.

Fixpoint has_comma (s : string) : bool :=
  match s with
  | EmptyString => false
  | String c rest => Ascii.eqb c ","%char || has_comma rest
  end.

Definition default_origins : list origin :=
  [OriginString "http://localhost:5173"; OriginString "http://localhost:5174"].

Definition deployment_patterns : list origin :=
  [OriginRegExp "https:\/\/.*\.render\.com$";
   OriginRegExp "https:\/\/.*\.vercel\.app$";
   OriginRegExp "https:\/\/.*\.netlify\.app$"].

Section Origins.
(** [String.prototype.trim], a built-in of the language. *)
Variable trim : string → string.

(** [env] is [process.env.FRONTEND_ORIGINS]: [None] when it is not set. *)
Definition getFrontendOrigins (env : option string) : list origin :=
  let origins := default_origins in
  let origins :=
    match env with
    | Some s =>
        if negb (String.eqb s "") then
          let envOrigins := (λ o, OriginString (trim o)) <$> split_comma s in
          origins ++ envOrigins
        else origins
    | None => origins
    end in
  origins ++ deployment_patterns.
End Origins.

(** *** The [SIGINT] handler, lines 613-622

    [ws.close()] is called on every client; the sessions stay in the
    registry until the [close] events arrive.  The console line and the
    deferred [server.close] and [process.exit] are outside the server
    state. *)
Section Shutdown.
Context {R : Type} `{!Robot R}.

Definition on_sigint (st : server (R:=R)) : server :=
  with_sockets (fmap ws_close) st.
End Shutdown.

(** *** The client: class [PhoneMouseControl], lines 293-445

    The page the server sends to the phone.  The state is that of the
    object and of the browser timers it starts; what the handlers do to
    the document (class lists, texts, [preventDefault], vibration) is
    outside it.  [socket_state] is [this.ws]: [None] for [null], else the
    [readyState] of the socket.  A timer id is a positive integer. *)

Inductive timer_callback : Type :=
  | LongPress
  | Reconnect
  | HideError.

Record client := {
  socket_state : option ready_state;
  isConnected : bool;
  lastTouch : point;
  longPressTimer : option positive;
  timers : gmap positive timer_callback;
  next_timer : positive;
  sent : list json;
}.

Definition new_client : client :=
  {| socket_state := None; isConnected := false;
     lastTouch := {| x := 0; y := 0 |}; longPressTimer := None;
     timers := ∅; next_timer := 1%positive; sent := [] |}.

Definition msg_rightClick : json := JObj [("type", JStr "rightClick")].

(** [sendMessage(data)], lines 440-444: [sent] lists what was handed to
    [ws.send]. *)
Definition sendMessage (data : json) (cl : client) : client :=
  match socket_state cl with
  | Some OPEN =>
      {| socket_state := socket_state cl; isConnected := isConnected cl;
         lastTouch := lastTouch cl; longPressTimer := longPressTimer cl;
         timers := timers cl; next_timer := next_timer cl;
         sent := sent cl ++ [data] |}
  | _ => cl
  end.

(** [setTimeout(callback, delay)]: the id and the new state. *)
Definition setTimeout (cb : timer_callback) (cl : client) : positive * client :=
  (next_timer cl,
   {| socket_state := socket_state cl; isConnected := isConnected cl;
      lastTouch := lastTouch cl; longPressTimer := longPressTimer cl;
      timers := <[next_timer cl := cb]> (timers cl);
      next_timer := Pos.succ (next_timer cl); sent := sent cl |}).

Definition clearTimeout (timer : positive) (cl : client) : client :=
  {| socket_state := socket_state cl; isConnected := isConnected cl;
     lastTouch := lastTouch cl; longPressTimer := longPressTimer cl;
     timers := delete timer (timers cl);
     next_timer := next_timer cl; sent := sent cl |}.

Definition set_longPressTimer (t : option positive) (cl : client) : client :=
  {| socket_state := socket_state cl; isConnected := isConnected cl;
     lastTouch := lastTouch cl; longPressTimer := t;
     timers := timers cl; next_timer := next_timer cl; sent := sent cl |}.

Definition set_lastTouch (p : point) (cl : client) : client :=
  {| socket_state := socket_state cl; isConnected := isConnected cl;
     lastTouch := p; longPressTimer := longPressTimer cl;
     timers := timers cl; next_timer := next_timer cl; sent := sent cl |}.

Definition set_isConnected (b : bool) (cl : client) : client :=
  {| socket_state := socket_state cl; isConnected := b;
     lastTouch := lastTouch cl; longPressTimer := longPressTimer cl;
     timers := timers cl; next_timer := next_timer cl; sent := sent cl |}.

Definition set_socket_state (rs : option ready_state) (cl : client) : client :=
  {| socket_state := rs; isConnected := isConnected cl;
     lastTouch := lastTouch cl; longPressTimer := longPressTimer cl;
     timers := timers cl; next_timer := next_timer cl; sent := sent cl |}.

(** [handleTouchStart(e)], lines 407-423; [touch] is [e.touches[0]]. *)
Definition handleTouchStart (touch : point) (cl : client) : client :=
  let cl := set_lastTouch touch cl in
  let '(timer, cl) := setTimeout LongPress cl in
  set_longPressTimer (Some timer) cl.

(** [handleTouchMove(e)], lines 335-359. *)
Definition handleTouchMove (touch : point) (cl : client) : client :=
  if negb (isConnected cl) then cl
  else
    let deltaX := (x touch - x (lastTouch cl)) * 2 in
    let deltaY := (y touch - y (lastTouch cl)) * 2 in
    let cl :=
      match longPressTimer cl with
      | Some timer => set_longPressTimer None (clearTimeout timer cl)
      | None => cl
      end in
    let cl := sendMessage (msg_move deltaX deltaY) cl in
    set_lastTouch touch cl.

(** [handleTouchEnd(e)], lines 425-438. *)
Definition handleTouchEnd (cl : client) : client :=
  match longPressTimer cl with
  | Some timer =>
      let cl := set_longPressTimer None (clearTimeout timer cl) in
      sendMessage msg_click cl
  | None => cl
  end.

(** [connect()], lines 361-385: a new socket, connecting. *)
Definition connect (cl : client) : client :=
  set_socket_state (Some CONNECTING) cl.

(** What a timer does when it fires. *)
Definition run_callback (cb : timer_callback) (cl : client) : client :=
  match cb with
  | LongPress => sendMessage msg_rightClick cl
  | Reconnect => connect cl
  | HideError => cl
  end.

Inductive client_event : Type :=
  | TouchStart (touch : point)
  | TouchMove (touch : point)
  | TouchEnd
  | TimerFires (timer : positive)
  | WsOpen
  | WsClose
  | WsError.

(** One callback of the page.  A timer fires once, if it has not been
    cleared; [WsOpen], [WsClose] and [WsError] are the [onopen],
    [onclose] and [onerror] of the current socket, whose [readyState] the
    browser has set before. *)
Definition client_step (cl : client) (e : client_event) : client :=
  match e with
  | TouchStart touch => handleTouchStart touch cl
  | TouchMove touch => handleTouchMove touch cl
  | TouchEnd => handleTouchEnd cl
  | TimerFires timer =>
      match timers cl !! timer with
      | Some cb => run_callback cb (clearTimeout timer cl)
      | None => cl
      end
  | WsOpen => set_isConnected true (set_socket_state (Some OPEN) cl)
  | WsClose =>
      let cl := set_isConnected false (set_socket_state (Some CLOSED) cl) in
      (setTimeout Reconnect cl).2
  | WsError => (setTimeout HideError cl).2
  end.

Definition client_run (cl : client) (evs : list client_event) : client :=
  foldl client_step cl evs.

(** The [move] messages of a drag that starts at [from] and passes
    through [touches]. *)
Fixpoint drag_messages (from : point) (touches : list point) : list json :=
  match touches with
  | [] => []
  | touch :: rest =>
      msg_move ((x touch - x from) * 2) ((y touch - y from) * 2)
      :: drag_messages touch rest
  end.

(** The sums of the deltas of a list of [move] messages. *)
Fixpoint total_delta (name : string) (msgs : list json) : Z :=
  match msgs with
  | [] => 0
  | m :: rest =>
      match get_prop m name with
      | Some (Some (JNum d)) => d + total_delta name rest
      | _ => total_delta name rest
      end
  end.

(** *** Inputs for the examples of the further properties *)

Definition msg_scroll_down : json :=
  JObj [("type", JStr "scroll"); ("deltaY", JNum 3)].

Definition msg_ping : json := JObj [("type", JStr "ping")].

(** A loopback interface, then an Ethernet interface with an IPv6 and an
    IPv4 address, then a wireless one. *)
Definition lan_interfaces : list (string * list net_iface) :=
  [("lo", [{| family := "IPv4"; internal := true; address := "127.0.0.1" |}]);
   ("eth0", [{| family := "IPv6"; internal := false; address := "fe80::1" |};
             {| family := "IPv4"; internal := false;
                address := "192.168.1.20" |}]);
   ("wlan0", [{| family := "IPv4"; internal := false;
                 address := "10.0.0.5" |}])].

(** The page after its constructor has run and its socket has opened. *)
Definition connected_page : client :=
  client_step (connect new_client) WsOpen.

(** * Properties *)

Ltac js_unfold :=
  unfold on_message, message_body, dispatch, case_setSessionId, case_move,
    robot_call, prop, eval, interpolate, try_catch, mbind, js_bind, bind,
    mret, js_ret, ret, throw, read, modify in *.

Section Claims.
Context {R : Type} `{!Robot R}.
Variable concat_to_number : Z → json → jsnum.

Implicit Types (st : server (R:=R)) (c : conn) (k : session_key)
  (s : session) (data : json) (now : Z) (r : R).

(** On a numeric delta the expression of the handler is the clamp of the
    specification, as soon as the range is not empty. *)
Lemma clamp_expr_num bound p d :
  0 ≤ bound →
  clamp_expr concat_to_number bound p (Some (JNum d))
  = Some (Num (clamp (p + d) 0 bound)).
Proof.
  intros Hb. unfold clamp_expr, clamp. simpl. do 2 f_equal.
  destruct (Z.ltb_spec (p + d) 0), (Z.ltb_spec bound (p + d)); lia.
Qed.

Lemma clamp_range v lo hi : lo ≤ hi → lo ≤ clamp v lo hi ≤ hi.
Proof.
  intros Hb. unfold clamp.
  destruct (Z.ltb_spec v lo), (Z.ltb_spec hi v); lia.
Qed.

(** The key a value becomes prints exactly when the value does. *)
Lemma key_prints_key_of_json stamp j :
  key_prints (key_of_json stamp j) = prints (Some j).
Proof. by destruct j. Qed.

(** The state a [move] message leaves when the id of the session prints,
    the two sums are evaluated and the capability call returns. *)
Lemma on_message_move c data deltaX deltaY newX newY now st so s r r' :
  sockets st !! c = Some so →
  sessions st !! ws_sessionId so = Some s →
  key_prints (id s) = true →
  robot st = Some r →
  get_prop data "type" = Some (Some (JStr "move")) →
  get_prop data "deltaX" = Some deltaX →
  get_prop data "deltaY" = Some deltaY →
  clamp_expr concat_to_number (width (getScreenSize r) - 1)
    (x (getMousePos r)) deltaX = Some newX →
  clamp_expr concat_to_number (height (getScreenSize r) - 1)
    (y (getMousePos r)) deltaY = Some newY →
  moveMouse newX newY r = Returns r' →
  on_message concat_to_number c (Some data) now st
  = (Normal tt,
     with_robot r'
       (console_log (LogReceived (id s) (Some (JStr "move")))
          (with_sessions
             (insert (ws_sessionId so) (set_lastActivity now s)) st))).
Proof.
  intros Hso Hs Hid Hr Hty Hdx Hdy Hx Hy Hcall. js_unfold.
  cbn. rewrite Hso. cbn. rewrite Hs. cbn. rewrite Hid, Hty. cbn.
  rewrite Hr. cbn. rewrite Hdx. cbn. rewrite Hx. cbn. rewrite Hdy. cbn.
  rewrite Hy. cbn. rewrite Hcall. reflexivity.
Qed.

(** *** What a message does to the registry and to the sockets *)

Lemma is_type_true ty name :
  is_type ty name = true → ty = Some (JStr name).
Proof.
  unfold is_type. destruct ty as [[]|]; try done.
  intros ?%String.eqb_eq. by subst.
Qed.

Lemma is_type_refl name : is_type (Some (JStr name)) name = true.
Proof. unfold is_type. apply String.eqb_refl. Qed.

(** The handler catches whatever its body throws. *)
Lemma on_message_returns c message now st :
  ∃ st', on_message concat_to_number c message now st = (Normal tt, st').
Proof.
  unfold on_message, try_catch.
  destruct (message_body _ _ _ _ _) as [[[]|] st']; eauto.
Qed.

Lemma on_message_effect c message now st :
  registry_effect c message now st
    (on_message concat_to_number c message now st).2.
Proof.
  js_unfold.
  destruct message as [data|]; cbn; [|by apply effect_none].
  destruct (sockets st !! c) as [so|] eqn:Hso; cbn; [|by apply effect_none].
  destruct (sessions st !! ws_sessionId so) as [s|] eqn:Hs; cbn;
    [|by apply effect_none].
  destruct (key_prints (id s)); cbn; [|by eapply effect_touch].
  destruct (get_prop data "type") as [ty|] eqn:Hty; cbn;
    [|by eapply effect_touch].
  destruct (prints ty); cbn; [|by eapply effect_touch].
  destruct (robot st) as [r|] eqn:Hr; cbn; [|by eapply effect_touch].
  destruct (is_type ty "setSessionId") eqn:Hrename.
  - apply is_type_true in Hrename as ->.
    destruct (get_prop data "sessionId") as [[j|]|] eqn:Hsid; cbn;
      try by eapply effect_touch.
    destruct (truthy (Some j)) eqn:Htruthy; cbn.
    2:{ by eapply effect_touch. }
    destruct (negb (to_string_throws j)); cbn;
      (eapply effect_rename; eauto; cbn;
       by rewrite delete_insert_eq, delete_insert_eq).
  - repeat (case_match; simplify_eq/=; try by eapply effect_touch).
Qed.

(** *** Move *)

(** A message is dispatched, that is, it reaches the [switch] of line
    546, when its socket has a registered session, the id of the session
    and the type of the message print in the log of line 538, and the
    capability is available; the session has been touched and the
    message logged by then. *)
Lemma message_body_dispatches c data ty now st so s r :
  sockets st !! c = Some so →
  sessions st !! ws_sessionId so = Some s →
  key_prints (id s) = true →
  get_prop data "type" = Some ty →
  prints ty = true →
  robot st = Some r →
  message_body concat_to_number c (Some data) now st
  = dispatch concat_to_number c (ws_sessionId so) (set_lastActivity now s)
      r data ty
      (console_log (LogReceived (id s) ty)
         (with_sessions
            (insert (ws_sessionId so) (set_lastActivity now s)) st)).
Proof.
  intros Hso Hs Hid Hty Hprints Hr.
  unfold message_body, prop, eval, interpolate, mbind, js_bind, bind, mret,
    js_ret, ret, throw, read, modify.
  cbn. rewrite Hso. cbn. rewrite Hs. cbn. rewrite Hid, Hty. cbn.
  rewrite Hprints. cbn. by rewrite Hr.
Qed.

(** Otherwise the capability is not called: a message that is not
    dispatched leaves [robot] as it is. *)
Lemma undispatched_message_keeps_robot c message now st :
  (∀ data so s ty r,
     message = Some data →
     sockets st !! c = Some so →
     sessions st !! ws_sessionId so = Some s →
     get_prop data "type" = Some ty →
     robot st = Some r →
     key_prints (id s) && prints ty = false) →
  robot (step concat_to_number st (Message c message now)) = robot st.
Proof.
  intros Hnot. unfold step. cbn [handler]. js_unfold.
  destruct message as [data|]; cbn; [|done].
  destruct (sockets st !! c) as [so|] eqn:Hso; cbn; [|done].
  destruct (sessions st !! ws_sessionId so) as [s|] eqn:Hs; cbn; [|done].
  destruct (key_prints (id s)) eqn:Hid; cbn; [|done].
  destruct (get_prop data "type") as [ty|] eqn:Hty; cbn; [|done].
  destruct (prints ty) eqn:Hprints; cbn; [|done].
  destruct (robot st) as [r|] eqn:Hr; cbn; [|done].
  specialize (Hnot data so s ty r eq_refl eq_refl Hs Hty eq_refl).
  by rewrite Hid, Hprints in Hnot.
Qed.

(** C1. A dispatched [move] with numeric deltas [(dx, dy)] calls the
    capability with exactly
    [(clamp (px + dx) 0 (w - 1), clamp (py + dy) 0 (h - 1))], where
    [(px, py)] is the pointer position and [(w, h)] the screen size the
    capability reports; that point becomes the pointer position and lies
    in [[0, w-1] × [0, h-1]].  The message is dispatched, that is, it
    reaches the [switch], when the socket has a registered session, the
    id of the session prints in the log of line 538, and the capability
    is available; the screen has at least one pixel in each direction. *)
Theorem move_sets_clamped_position `{!RobotMoves R}
    c data dx dy now st so s r :
  sockets st !! c = Some so →
  sessions st !! ws_sessionId so = Some s →
  key_prints (id s) = true →
  robot st = Some r →
  get_prop data "type" = Some (Some (JStr "move")) →
  get_prop data "deltaX" = Some (Some (JNum dx)) →
  get_prop data "deltaY" = Some (Some (JNum dy)) →
  0 < width (getScreenSize r) →
  0 < height (getScreenSize r) →
  let w := width (getScreenSize r) in
  let h := height (getScreenSize r) in
  let newX := clamp (x (getMousePos r) + dx) 0 (w - 1) in
  let newY := clamp (y (getMousePos r) + dy) 0 (h - 1) in
  ∃ st' r',
    on_message concat_to_number c (Some data) now st = (Normal tt, st')
    ∧ moveMouse (Num newX) (Num newY) r = Returns r'
    ∧ robot st' = Some r'
    ∧ getMousePos r' = {| x := newX; y := newY |}
    ∧ (0 ≤ newX ≤ w - 1) ∧ (0 ≤ newY ≤ h - 1).
Proof.
  intros Hso Hs Hid Hr Hty Hdx Hdy Hw Hh w h newX newY.
  destruct (moveMouse_returns newX newY r) as [r' Hcall].
  eexists _, r'. split; [|split; [exact Hcall|]].
  - eapply (on_message_move c data _ _ (Num newX) (Num newY)); eauto;
      apply clamp_expr_num; lia.
  - split; [reflexivity|]. split; [by eapply moveMouse_pos|].
    split; apply clamp_range; lia.
Qed.



(** *** Rename *)

(** The state a [setSessionId] message with a truthy [sessionId] leaves
    when the capability is available and the id of the session prints:
    the rename is done, and the handler logs it, or logs the error when
    the new id does not print. *)
Lemma on_message_rename c data j now st so s r :
  sockets st !! c = Some so →
  sessions st !! ws_sessionId so = Some s →
  key_prints (id s) = true →
  robot st = Some r →
  get_prop data "type" = Some (Some (JStr "setSessionId")) →
  get_prop data "sessionId" = Some (Some j) →
  truthy (Some j) = true →
  let newId := key_of_json (next_stamp st) j in
  ∃ st',
    on_message concat_to_number c (Some data) now st = (Normal tt, st')
    ∧ sessions st'
      = <[newId := set_id newId (set_lastActivity now s)]>
          (delete (ws_sessionId so) (sessions st))
    ∧ sockets st' = alter (set_ws_sessionId newId) c (sockets st)
    ∧ robot st' = robot st
    ∧ console st'
      = console st
        ++ [LogReceived (id s) (Some (JStr "setSessionId"));
            if prints (Some j) then LogSessionIdUpdated (id s) (Some j)
            else LogErrorProcessing].
Proof.
  intros Hso Hs Hid Hr Hty Hsid Htruthy newId. js_unfold.
  cbn. rewrite Hso. cbn. rewrite Hs. cbn. rewrite Hid, Hty. cbn.
  rewrite Hr. cbn. rewrite is_type_refl, Hsid. cbn. rewrite Htruthy. cbn.
  destruct (negb (to_string_throws j)); cbn;
    (eexists; split; [reflexivity|]; cbn;
     rewrite !delete_insert_eq, <-app_assoc; done).
Qed.

(** C3, amended.  A rename to an id that denotes a different live
    session is carried out, not rejected, when the handler can print the
    current id of the session and the new id in its log lines, as it can
    print every string: the handler returns without an error, the record
    of the renaming session is stored under the new id in place of the
    record that was there, its old key is removed, every other entry is
    kept, and the socket addresses the new id. *)
Theorem rename_overwrites_duplicate c data j now st so s other r :
  sockets st !! c = Some so →
  sessions st !! ws_sessionId so = Some s →
  key_prints (id s) = true →
  robot st = Some r →
  get_prop data "type" = Some (Some (JStr "setSessionId")) →
  get_prop data "sessionId" = Some (Some j) →
  truthy (Some j) = true →
  prints (Some j) = true →
  let oldId := ws_sessionId so in
  let newId := key_of_json (next_stamp st) j in
  sessions st !! newId = Some other →
  oldId ≠ newId →
  ∃ st',
    on_message concat_to_number c (Some data) now st = (Normal tt, st')
    ∧ (LogErrorProcessing ∉ drop (length (console st)) (console st'))
    ∧ sessions st' !! newId = Some (set_id newId (set_lastActivity now s))
    ∧ sessions st' !! oldId = None
    ∧ (∀ k, k ≠ oldId → k ≠ newId → sessions st' !! k = sessions st !! k)
    ∧ size (sessions st') = pred (size (sessions st))
    ∧ (ws_sessionId <$> sockets st' !! c) = Some newId.
Proof.
  intros Hso Hs Hid Hr Hty Hsid Htruthy Hj oldId newId Hother Hne.
  destruct (on_message_rename c data j now st so s r)
    as (st' & Hrun & Hsessions & Hsockets & _ & Hconsole); try done.
  exists st'. split; [done|]. rewrite Hsessions, Hsockets, Hconsole, Hj.
  subst oldId newId. repeat split.
  - rewrite drop_app_length, !not_elem_of_cons.
    repeat split; try done. apply not_elem_of_nil.
  - by rewrite lookup_insert_eq.
  - by rewrite lookup_insert_ne, lookup_delete_eq.
  - intros k Hk1 Hk2. by rewrite lookup_insert_ne, lookup_delete_ne.
  - rewrite map_size_insert_Some.
    + by rewrite map_size_delete, Hs.
    + rewrite lookup_delete_ne by done. eauto.
  - rewrite lookup_alter_eq, Hso. done.
Qed.

(** C8. After a successful rename of a registered session (the id of the
    session prints in the log of line 538, so that the message reaches
    the [switch], the capability is available and the new id is truthy),
    looking up the new id gives the record of that session, with the
    same [connectedAt], remote address and connection; looking up the
    old id, when it differs from the new one, gives nothing; and the
    socket addresses the record by the new id from then on. *)
Theorem rename_moves_record c data j now st so s r :
  sockets st !! c = Some so →
  sessions st !! ws_sessionId so = Some s →
  key_prints (id s) = true →
  robot st = Some r →
  get_prop data "type" = Some (Some (JStr "setSessionId")) →
  get_prop data "sessionId" = Some (Some j) →
  truthy (Some j) = true →
  let oldId := ws_sessionId so in
  let newId := key_of_json (next_stamp st) j in
  ∃ st' s' so',
    on_message concat_to_number c (Some data) now st = (Normal tt, st')
    ∧ sessions st' !! newId = Some s'
    ∧ id s' = newId
    ∧ connectedAt s' = connectedAt s ∧ ip s' = ip s ∧ ws s' = ws s
    ∧ (oldId ≠ newId → sessions st' !! oldId = None)
    ∧ sockets st' !! c = Some so'
    ∧ ws_sessionId so' = newId
    ∧ readyState so' = readyState so.
Proof.
  intros Hso Hs Hid Hr Hty Hsid Htruthy oldId newId.
  destruct (on_message_rename c data j now st so s r)
    as (st' & Hrun & Hsessions & Hsockets & _ & _); try done.
  exists st', (set_id newId (set_lastActivity now s)),
    (set_ws_sessionId newId so).
  rewrite Hsessions, Hsockets. subst oldId newId. repeat split; try done.
  - by rewrite lookup_insert_eq.
  - intros Hne. by rewrite lookup_insert_ne, lookup_delete_eq.
  - by rewrite lookup_alter_eq, Hso.
Qed.

(** *** Messages without a capability *)

(** What the handler does when [robot] is [null]. *)
Lemma on_message_headless c message now st :
  robot st = None →
  on_message concat_to_number c message now st
  = (Normal tt,
     match message with
     | None => console_log LogErrorProcessing st
     | Some data =>
         match sockets st !! c with
         | None => st
         | Some so =>
             match sessions st !! ws_sessionId so with
             | None => st
             | Some s =>
                 let st1 :=
                   with_sessions
                     (insert (ws_sessionId so) (set_lastActivity now s)) st in
                 match get_prop data "type" with
                 | Some ty =>
                     if key_prints (id s) && prints ty then
                       console_log LogRobotUnavailable
                         (console_log (LogReceived (id s) ty) st1)
                     else console_log LogErrorProcessing st1
                 | None => console_log LogErrorProcessing st1
                 end
             end
         end
     end).
Proof.
  intros Hr. js_unfold. destruct message as [data|]; cbn; [|done].
  destruct (sockets st !! c) as [so|]; cbn; [|done].
  destruct (sessions st !! ws_sessionId so) as [s|]; cbn; [|done].
  destruct (key_prints (id s)); cbn; [|by destruct (get_prop data "type")].
  destruct (get_prop data "type") as [ty|]; cbn; [|done].
  destruct (prints ty); cbn; [|done].
  by rewrite Hr.
Qed.

(** C4, amended.  When the capability is unavailable every command,
    [setSessionId] included, is a logged no-op: the handler returns
    normally, the capability stays absent, no socket changes (the
    connection stays open and keeps its session id), the registry keeps
    its keys, and the only field written is the [lastActivity] of the
    session of the socket.  A command whose [type] can be read is logged
    and answered by the line that the capability is unavailable when the
    id of the session and the type print; when one of them does not, the
    line logged is the error of the handler. *)
Theorem headless_commands_are_noops c message now st :
  robot st = None →
  ∃ st',
    on_message concat_to_number c message now st = (Normal tt, st')
    ∧ robot st' = None
    ∧ sockets st' = sockets st
    ∧ dom (sessions st') = dom (sessions st)
    ∧ (∀ k s, sessions st !! k = Some s →
         sessions st' !! k = Some s
         ∨ (∃ so, sockets st !! c = Some so ∧ ws_sessionId so = k
                  ∧ sessions st' !! k = Some (set_lastActivity now s)))
    ∧ (∀ data ty so s,
         message = Some data →
         get_prop data "type" = Some ty →
         sockets st !! c = Some so →
         sessions st !! ws_sessionId so = Some s →
         console st'
         = console st
           ++ (if key_prints (id s) && prints ty
               then [LogReceived (id s) ty; LogRobotUnavailable]
               else [LogErrorProcessing])).
Proof.
  intros Hr. eexists. split; [by apply on_message_headless|].
  assert (Hsame : ∀ st', robot st' = None → sockets st' = sockets st →
    sessions st' = sessions st →
    (∀ data ty so s, message = Some data → get_prop data "type" = Some ty →
       sockets st !! c = Some so →
       sessions st !! ws_sessionId so = Some s → False) →
    robot st' = None ∧ sockets st' = sockets st
    ∧ dom (sessions st') = dom (sessions st)
    ∧ (∀ k s, sessions st !! k = Some s →
         sessions st' !! k = Some s
         ∨ (∃ so, sockets st !! c = Some so ∧ ws_sessionId so = k
                  ∧ sessions st' !! k = Some (set_lastActivity now s)))
    ∧ (∀ data ty so s, message = Some data →
         get_prop data "type" = Some ty →
         sockets st !! c = Some so →
         sessions st !! ws_sessionId so = Some s →
         console st'
         = console st
           ++ (if key_prints (id s) && prints ty
               then [LogReceived (id s) ty; LogRobotUnavailable]
               else [LogErrorProcessing]))).
  { intros st' ? ? Hsess Habs. repeat split; try done.
    - by rewrite Hsess.
    - intros k s Hk. left. by rewrite Hsess.
    - intros data ty so s ? ? ? ?. by destruct (Habs data ty so s). }
  destruct message as [data|]; [|by apply Hsame].
  destruct (sockets st !! c) as [so|] eqn:Hso;
    [|apply Hsame; try done; by intros ???? _ _ ?].
  destruct (sessions st !! ws_sessionId so) as [s|] eqn:Hs;
    [|apply Hsame; try done; intros ???? _ _ ??; by simplify_eq].
  clear Hsame.
  assert (Hdom : dom (<[ws_sessionId so:=set_lastActivity now s]> (sessions st))
                 = dom (sessions st)).
  { apply dom_insert_lookup_L. eauto. }
  assert (Hrec : ∀ k s0, sessions st !! k = Some s0 →
    <[ws_sessionId so:=set_lastActivity now s]> (sessions st) !! k = Some s0
    ∨ (∃ so0, Some so = Some so0 ∧ ws_sessionId so0 = k
         ∧ <[ws_sessionId so:=set_lastActivity now s]> (sessions st) !! k
           = Some (set_lastActivity now s0))).
  { intros k s0 Hk. destruct (decide (ws_sessionId so = k)) as [<-|Hne].
    - right. exists so. rewrite lookup_insert_eq. by simplify_eq.
    - left. by rewrite lookup_insert_ne. }
  destruct (get_prop data "type") as [ty|] eqn:Hty; cbn.
  - destruct (key_prints (id s) && prints ty) eqn:Hprints; cbn;
      (repeat split; [done..| |]; [exact Hrec|]);
      intros data' ty' so' s' ?; intros; simplify_eq;
      rewrite Hprints; cbn; by rewrite <-?app_assoc.
  - repeat split; [done..| |]; [exact Hrec|].
    intros data' ty' so' s' ?; intros; simplify_eq.
Qed.

(** *** Messages that are not commands *)

(** C5, amended.  A message on which [JSON.parse] throws is dropped with
    a diagnostic: the handler returns normally and the state is the
    former one with the error line added to the console, so the
    connection stays open and no [lastActivity] changes.  An entry of
    the registry is written only on receipt of a message that
    [JSON.parse] accepts, on a socket whose session is registered. *)
Theorem unparsable_message_is_dropped c now st :
  on_message concat_to_number c None now st
  = (Normal tt, console_log LogErrorProcessing st)
  ∧ ∀ message k,
      sessions (step concat_to_number st (Message c message now)) !! k
      ≠ sessions st !! k →
      is_Some message
      ∧ ∃ so s, sockets st !! c = Some so
                ∧ sessions st !! ws_sessionId so = Some s.
Proof.
  split; [reflexivity|]. intros message k Hk. unfold step in Hk.
  cbn [handler] in Hk.
  destruct (on_message_effect c message now st)
    as [Heq _ | so s Hso Hs Hmsg _ _
        | so s data j r Hso Hs Hmsg _ _ _ _ newId _ _].
  - by rewrite Heq in Hk.
  - eauto.
  - rewrite Hmsg. eauto.
Qed.

(** *** Moves with missing or non-numeric deltas *)



(** *** Messages other than [setSessionId] *)

(** C10. A message whose type is not [setSessionId] (a [move], [click],
    [rightClick] or [scroll], an unknown type, or no readable type)
    leaves the key set of the registry and every socket as they are, and
    every record keeps its [id], connection, address and [connectedAt];
    a [lastActivity] that changes is that of the session of the
    receiving socket, set to the time of the message. *)
Theorem other_messages_only_touch c message now st :
  (∀ data, message = Some data →
     get_prop data "type" ≠ Some (Some (JStr "setSessionId"))) →
  let st' := step concat_to_number st (Message c message now) in
  dom (sessions st') = dom (sessions st)
  ∧ sockets st' = sockets st
  ∧ ∀ k s,
      sessions st !! k = Some s →
      ∃ s',
        sessions st' !! k = Some s'
        ∧ id s' = id s ∧ ws s' = ws s ∧ ip s' = ip s
        ∧ connectedAt s' = connectedAt s
        ∧ (lastActivity s' ≠ lastActivity s →
             lastActivity s' = now
             ∧ ∃ so, sockets st !! c = Some so ∧ ws_sessionId so = k).
Proof.
  intros Hty st'. subst st'. unfold step. cbn [handler].
  destruct (on_message_effect c message now st)
    as [Heq Hsock | so s Hso Hs Hmsg Heq Hsock
        | so s data j r _ _ Hmsg _ Hrename _ _ newId _ _].
  - rewrite Heq, Hsock. repeat split. intros k s Hk. exists s. naive_solver.
  - rewrite Heq, Hsock. repeat split.
    + apply dom_insert_lookup_L. eauto.
    + intros k s0 Hk. destruct (decide (ws_sessionId so = k)) as [<-|Hne].
      * exists (set_lastActivity now s). rewrite lookup_insert_eq.
        simplify_eq. do 5 (split; [done|]). intros _. eauto.
      * exists s0. rewrite lookup_insert_ne by done. naive_solver.
  - by destruct (Hty data Hmsg).
Qed.
(** *** The cleanup sweep *)

(** The loop on a key that is not in the map, on a key whose session has
    not expired, on one whose session has expired and whose key prints,
    and on one whose key does not print. *)
Lemma sweep_loop_absent now k keys n st :
  sessions st !! k = None →
  sweep_loop now (k :: keys) n st = sweep_loop now keys n st.
Proof. intros Hk. cbn. js_unfold. by rewrite Hk. Qed.

Lemma sweep_loop_fresh now k keys n st s :
  sessions st !! k = Some s → ¬ expired now s →
  sweep_loop now (k :: keys) n st = sweep_loop now keys n st.
Proof.
  intros Hk Hfresh. cbn. js_unfold. rewrite Hk.
  by rewrite decide_False.
Qed.

Lemma sweep_loop_expired now k keys n st s :
  sessions st !! k = Some s → expired now s → key_prints k = true →
  sweep_loop now (k :: keys) n st
  = sweep_loop now keys (n + 1)
      (evict k s (round_seconds (now - lastActivity s)) st).
Proof.
  intros Hk Hexp Hprint. cbn. js_unfold. rewrite Hk.
  rewrite decide_True by done. by rewrite Hprint.
Qed.

Lemma sweep_loop_throws now k keys n st s :
  sessions st !! k = Some s → expired now s → key_prints k = false →
  sweep_loop now (k :: keys) n st = (Abrupt, st).
Proof.
  intros Hk Hexp Hprint. cbn. js_unfold. rewrite Hk.
  rewrite decide_True by done. by rewrite Hprint.
Qed.

(** A property that every eviction keeps holds after the loop, whether
    the loop ends or throws. *)
Lemma sweep_loop_inv now (P : server (R:=R) → Prop) keys st n :
  P st →
  (∀ st0 k s, sessions st0 !! k = Some s → expired now s →
     key_prints k = true → P st0 →
     P (evict k s (round_seconds (now - lastActivity s)) st0)) →
  P (sweep_loop now keys n st).2.
Proof.
  intros HP Hstep. revert st n HP.
  induction keys as [|k keys IH]; intros st n HP; [done|].
  destruct (sessions st !! k) as [s|] eqn:Hk.
  - destruct (decide (expired now s)) as [Hexp|Hexp].
    + destruct (key_prints k) eqn:Hprint.
      * rewrite (sweep_loop_expired now k keys n st s) by done.
        apply IH. by apply Hstep.
      * by rewrite (sweep_loop_throws now k keys n st s).
    + rewrite (sweep_loop_fresh now k keys n st s) by done. by apply IH.
  - rewrite sweep_loop_absent by done. by apply IH.
Qed.

Lemma sweep_state now st :
  step concat_to_number st (Sweep now)
  = match sweep_loop now (order st) 0 st with
    | (Normal n, st1) =>
        if decide (n > 0)
        then console_log (LogCleaned n (size (sessions st1))) st1
        else st1
    | (Abrupt, st1) => st1
    end.
Proof.
  unfold step. cbn [handler]. unfold sweep. js_unfold. cbn.
  destruct (sweep_loop now (order st) 0 st) as [[n|] st1]; [|done].
  by case_decide.
Qed.

Lemma sweep_step_sessions now st :
  sessions (step concat_to_number st (Sweep now))
  = sessions (sweep_loop now (order st) 0 st).2.
Proof.
  rewrite sweep_state.
  destruct (sweep_loop now (order st) 0 st) as [[n|] st1]; [|done].
  by case_decide.
Qed.

Lemma sweep_step_sockets now st :
  sockets (step concat_to_number st (Sweep now))
  = sockets (sweep_loop now (order st) 0 st).2.
Proof.
  rewrite sweep_state.
  destruct (sweep_loop now (order st) 0 st) as [[n|] st1]; [|done].
  by case_decide.
Qed.

Lemma expired_keys_print_evict now st k s seconds :
  expired_keys_print now st →
  expired_keys_print now (evict k s seconds st).
Proof.
  intros Hprint k0 s0. cbn. rewrite lookup_delete_Some.
  intros [_ Hk0]. by apply Hprint.
Qed.




(** When the keys of the expired sessions print, an expired session whose
    key the loop visits is gone after the loop. *)
Lemma sweep_loop_deletes now keys st n k s :
  expired_keys_print now st →
  k ∈ keys → sessions st !! k = Some s → expired now s →
  sessions (sweep_loop now keys n st).2 !! k = None.
Proof.
  revert st n. induction keys as [|k0 keys IH]; intros st n Hprint Hin Hk Hexp.
  { by apply elem_of_nil in Hin. }
  destruct (sessions st !! k0) as [s0|] eqn:Hk0.
  - destruct (decide (expired now s0)) as [Hexp0|Hexp0].
    + rewrite (sweep_loop_expired now k0 keys n st s0);
        [|done..|by apply (Hprint k0 s0)].
      destruct (decide (k = k0)) as [->|Hne].
      * apply (sweep_loop_inv now (λ st0, sessions st0 !! k0 = None)).
        -- cbn. apply lookup_delete_eq.
        -- intros st0 k1 s1 _ _ _ Hnone. cbn.
           rewrite lookup_delete_None. by right.
      * apply IH.
        -- by apply expired_keys_print_evict.
        -- apply elem_of_cons in Hin as [?|?]; done.
        -- cbn. by rewrite lookup_delete_ne.
        -- done.
    + rewrite (sweep_loop_fresh now k0 keys n st s0) by done.
      apply IH; try done.
      apply elem_of_cons in Hin as [->|?]; [|done]. by simplify_eq.
  - rewrite sweep_loop_absent by done. apply IH; try done.
    apply elem_of_cons in Hin as [->|?]; [|done]. by simplify_eq.
Qed.


Lemma order_ok_elem st k s :
  order_ok st → sessions st !! k = Some s → k ∈ order st.
Proof.
  intros [_ Hkeys] Hk.
  apply (elem_of_list_to_set (C:=gset session_key)).
  rewrite Hkeys. by apply elem_of_dom_2 in Hk.
Qed.

(** A session that has not expired is left as it is by the loop. *)
Lemma sweep_keeps_fresh now st k s :
  sessions st !! k = Some s → ¬ expired now s →
  sessions (step concat_to_number st (Sweep now)) !! k = Some s.
Proof.
  intros Hk Hfresh. rewrite sweep_step_sessions.
  apply (sweep_loop_inv now (λ st0, sessions st0 !! k = Some s)); [done|].
  intros st0 k0 s0 Hk0 Hexp _ Hk'. cbn.
  rewrite lookup_delete_ne; [done|]. intros ->. by simplify_eq.
Qed.

Lemma sweep_step_subseteq now st :
  sessions (step concat_to_number st (Sweep now)) ⊆ sessions st.
Proof.
  rewrite sweep_step_sessions.
  apply (sweep_loop_inv now (λ st0, sessions st0 ⊆ sessions st)); [done|].
  intros st0 k s _ _ _ IH. cbn. etrans; [apply delete_subseteq|done].
Qed.


(** *** The order of the keys *)

Lemma lists_keys_touch (m : gmap session_key session) keys k s :
  lists_keys m keys → is_Some (m !! k) → lists_keys (<[k:=s]> m) keys.
Proof.
  intros [Hnodup Hkeys] Hk. split; [done|].
  rewrite Hkeys. symmetry. by apply dom_insert_lookup_L.
Qed.

Lemma lists_keys_set (m : gmap session_key session) keys k s :
  lists_keys m keys →
  lists_keys (<[k:=s]> m)
    (if decide (is_Some (m !! k)) then keys else keys ++ [k]).
Proof.
  intros Hok. case_decide as Hk; [by apply lists_keys_touch|].
  destruct Hok as [Hnodup Hkeys]. split.
  - apply NoDup_app. split; [done|]. split; [|apply NoDup_singleton].
    intros k0 Hk0 ->%list_elem_of_singleton. apply Hk.
    apply elem_of_dom. rewrite <-Hkeys. by apply elem_of_list_to_set.
  - rewrite list_to_set_app_L, Hkeys, dom_insert_L. cbn.
    rewrite union_empty_r_L. apply (comm_L (∪)).
Qed.

Lemma lists_keys_delete (m : gmap session_key session) keys k :
  lists_keys m keys →
  lists_keys (delete k m) (filter (λ k', k' ≠ k) keys).
Proof.
  intros [Hnodup Hkeys]. split; [by apply NoDup_filter|].
  rewrite dom_delete_L, <-Hkeys. apply set_eq. intros k0.
  rewrite elem_of_list_to_set, list_elem_of_filter, elem_of_difference,
    elem_of_list_to_set, not_elem_of_singleton.
  tauto.
Qed.

Lemma on_message_order_ok c message now st :
  order_ok st → order_ok (on_message concat_to_number c message now st).2.
Proof.
  intros Hok. js_unfold.
  destruct message as [data|]; cbn; [|done].
  destruct (sockets st !! c) as [so|] eqn:Hso; cbn; [|done].
  destruct (sessions st !! ws_sessionId so) as [s|] eqn:Hs; cbn; [|done].
  assert (Htouch : lists_keys
            (<[ws_sessionId so:=set_lastActivity now s]> (sessions st))
            (order st)).
  { apply lists_keys_touch; eauto. }
  destruct (key_prints (id s)); cbn; [|done].
  destruct (get_prop data "type") as [ty|] eqn:Hty; cbn; [|done].
  destruct (prints ty); cbn; [|done].
  destruct (robot st) as [r|] eqn:Hr; cbn; [|done].
  destruct (is_type ty "setSessionId") eqn:Hrename.
  - destruct (get_prop data "sessionId") as [[j|]|] eqn:Hsid; cbn;
      try done.
    destruct (truthy (Some j)) eqn:Htruthy; cbn; [|done].
    assert (Hrenamed : order_ok
      (sessions_set (key_of_json (next_stamp st) j)
         (set_id (key_of_json (next_stamp st) j) (set_lastActivity now s))
         (sessions_delete (ws_sessionId so)
            (with_sessions
               (insert (ws_sessionId so)
                  (set_id (key_of_json (next_stamp st) j)
                     (set_lastActivity now s)))
               (with_sessions
                  (insert (ws_sessionId so) (set_lastActivity now s))
                  st))))).
    { apply lists_keys_set, lists_keys_delete, lists_keys_touch; [done|].
      cbn. rewrite lookup_insert_eq. eauto. }
    by destruct (negb (to_string_throws j)).
  - repeat (case_match; simplify_eq/=; try done).
Qed.

Lemma on_close_order_ok c now st :
  order_ok st → order_ok (on_close c now st).2.
Proof.
  intros Hok. unfold on_close. js_unfold. cbn.
  destruct (alter _ c (sockets st) !! c) as [so|]; cbn; [|done].
  destruct (sessions st !! ws_sessionId so) as [s|]; cbn; [|done].
  destruct (key_prints (id s)); cbn; [|done].
  by apply lists_keys_delete.
Qed.

Lemma on_error_order_ok c st :
  order_ok st → order_ok (on_error c st).2.
Proof.
  intros Hok. unfold on_error. js_unfold. cbn.
  destruct (sockets st !! c) as [so|]; cbn; [|done].
  destruct (key_prints (ws_sessionId so)); cbn; [|done].
  destruct (key_truthy (ws_sessionId so) && _); cbn; [|done].
  by apply lists_keys_delete.
Qed.

(** In every state the server reaches the map is well formed. *)
Lemma step_order_ok st e :
  order_ok st → order_ok (step concat_to_number st e).
Proof.
  intros Hok.
  destruct e as [c addr t1 t2 t3|c message now|c now|c|now].
  - by apply lists_keys_set.
  - by apply on_message_order_ok.
  - by apply on_close_order_ok.
  - by apply on_error_order_ok.
  - rewrite sweep_state.
    assert (Hloop : order_ok (sweep_loop now (order st) 0 st).2).
    { apply sweep_loop_inv; [done|].
      intros st0 k s _ _ _ Hst0. by apply lists_keys_delete. }
    destruct (sweep_loop now (order st) 0 st) as [[n|] st1]; [|done].
    by case_decide.
Qed.

Lemma run_order_ok (r : option R) evs :
  order_ok (run concat_to_number (initial r) evs).
Proof.
  assert (Hrun : ∀ st, order_ok st → order_ok (run concat_to_number st evs)).
  { induction evs as [|e evs IH]; intros st Hok; [done|].
    cbn [run foldl]. apply IH. by apply step_order_ok. }
  apply Hrun. split; [constructor|]. cbn.
  by rewrite dom_empty_L.
Qed.

(** *** Uniqueness of session ids *)

Lemma keyed_by_id_distinct st : keyed_by_id st → ids_pairwise_distinct st.
Proof.
  intros Hkeyed k1 k2 s1 s2 H1 H2 Hne.
  by rewrite (Hkeyed _ _ H1), (Hkeyed _ _ H2).
Qed.

Lemma keyed_by_id_delete st st' k :
  sessions st' = delete k (sessions st) → keyed_by_id st → keyed_by_id st'.
Proof.
  intros Heq Hkeyed k0 s0. rewrite Heq, lookup_delete_Some.
  intros [_ ?]. by apply Hkeyed.
Qed.

Lemma keyed_by_id_insert st st' k s :
  sessions st' = <[k:=s]> (sessions st) → id s = k →
  keyed_by_id st → keyed_by_id st'.
Proof.
  intros Heq Hid Hkeyed k0 s0. rewrite Heq, lookup_insert_Some.
  intros [[<- <-]|[_ ?]]; [done|]. by apply Hkeyed.
Qed.

Lemma keyed_by_id_same st st' :
  sessions st' = sessions st → keyed_by_id st → keyed_by_id st'.
Proof. intros Heq Hkeyed k0 s0. rewrite Heq. apply Hkeyed. Qed.

Lemma on_connection_sessions c addr t1 t2 t3 st :
  let k :=
    KStr ("session_" +:+ pretty (sessionIdCounter st + 1) +:+ "_"
          +:+ pretty t1) in
  sessions (on_connection c addr t1 t2 t3 st).2
  = <[k := {| id := k; ws := c; ip := addr;
              connectedAt := t2; lastActivity := t3 |}]> (sessions st).
Proof. reflexivity. Qed.

(** *** Close and error *)

(** What the [close] handler does to the registry: it removes the
    session of the socket when the id of the session prints. *)
Lemma on_close_sessions c now st :
  sessions (step concat_to_number st (Close c now))
  = match sockets st !! c with
    | Some so =>
        match sessions st !! ws_sessionId so with
        | Some s =>
            if key_prints (id s) then delete (ws_sessionId so) (sessions st)
            else sessions st
        | None => sessions st
        end
    | None => sessions st
    end.
Proof.
  unfold step. cbn [handler]. unfold on_close. js_unfold. cbn.
  rewrite lookup_alter_eq.
  destruct (sockets st !! c) as [so|]; cbn; [|done].
  destruct (sessions st !! ws_sessionId so) as [s|] eqn:Hs; cbn; [|done].
  by destruct (key_prints (id s)).
Qed.

Lemma on_close_sockets c now st :
  sockets (step concat_to_number st (Close c now))
  = alter (set_readyState CLOSED) c (sockets st).
Proof.
  unfold step. cbn [handler]. unfold on_close. js_unfold. cbn.
  rewrite lookup_alter_eq.
  destruct (sockets st !! c) as [so|]; cbn; [|done].
  destruct (sessions st !! ws_sessionId so) as [s|]; cbn; [|done].
  by destruct (key_prints (id s)).
Qed.

(** What the [error] handler does: it removes the session of the socket
    when the key prints and is truthy, and changes nothing else. *)
Lemma on_error_state c st :
  let st' := step concat_to_number st (Error c) in
  sessions st'
  = match sockets st !! c with
    | Some so =>
        if key_prints (ws_sessionId so) && key_truthy (ws_sessionId so)
        then delete (ws_sessionId so) (sessions st)
        else sessions st
    | None => sessions st
    end
  ∧ sockets st' = sockets st
  ∧ connectedClients st' = connectedClients st
  ∧ sessionIdCounter st' = sessionIdCounter st
  ∧ robot st' = robot st.
Proof.
  unfold step. cbn [handler]. unfold on_error. js_unfold. cbn.
  destruct (sockets st !! c) as [so|]; cbn; [|done].
  destruct (key_prints (ws_sessionId so)); cbn; [|done].
  destruct (key_truthy (ws_sessionId so)); cbn; [|done].
  case_bool_decide as Hin; cbn; repeat split.
  symmetry. apply delete_id.
  destruct (sessions st !! ws_sessionId so) eqn:E; [|done].
  destruct Hin. eauto.
Qed.

(** *** Every record under its own id *)

(** Create, rename, touch, remove and eviction all keep every record
    under its own [id]. *)
Lemma step_keyed_by_id st e :
  keyed_by_id st → keyed_by_id (step concat_to_number st e).
Proof.
  intros Hkeyed.
  destruct e as [c addr t1 t2 t3|c message now|c now|c|now].
  - eapply keyed_by_id_insert;
      [apply on_connection_sessions|reflexivity|exact Hkeyed].
  - unfold step. cbn [handler].
    destruct (on_message_effect c message now st)
      as [Heq _ | so s Hso Hs _ Heq _
          | so s data j r _ _ _ _ _ _ _ newId Heq _].
    + by eapply keyed_by_id_same.
    + eapply keyed_by_id_insert; [exact Heq| |exact Hkeyed].
      cbn. by apply Hkeyed.
    + intros k0 s0. rewrite Heq, lookup_insert_Some.
      intros [[<- <-]|[_ Hk0]]; [done|].
      apply lookup_delete_Some in Hk0 as [_ ?]. by apply Hkeyed.
  - pose proof (on_close_sessions c now st) as Heq.
    repeat case_match;
      first [by eapply keyed_by_id_delete | by eapply keyed_by_id_same].
  - destruct (on_error_state c st) as (Heq & _).
    repeat case_match;
      first [by eapply keyed_by_id_delete | by eapply keyed_by_id_same].
  - intros k s Hk. apply Hkeyed.
    by eapply lookup_weaken; [|apply sweep_step_subseteq].
Qed.

Lemma run_keyed_by_id st evs :
  keyed_by_id st → keyed_by_id (run concat_to_number st evs).
Proof.
  revert st. induction evs as [|e evs IH]; intros st Hkeyed; [done|].
  cbn [run foldl]. apply IH. by apply step_keyed_by_id.
Qed.

(** C7. In every state the server reaches from its start, whatever the
    sequence of connections, messages (touch, rename), closes, errors
    and sweeps, no two sessions of the registry share an id. *)
Theorem registered_ids_distinct (r : option R) evs :
  ids_pairwise_distinct (run concat_to_number (initial r) evs).
Proof.
  apply keyed_by_id_distinct, run_keyed_by_id.
  intros k s. cbn. by rewrite lookup_empty.
Qed.
End Claims.

(** * The scenarios of the specification, on the stub capability *)

(** Relative move: the cursor at (500, 500) on a 1920×1080 screen, the
    message [{type: "move", deltaX: 10, deltaY: -5}] puts it at
    (510, 495). *)
Lemma move_scenario :
  ∃ st' r',
    on_message stub_concat 1%nat (Some (msg_move 10 (-5))) 3000 desk
    = (Normal tt, st')
    ∧ moveMouse (Num 510) (Num 495) (stub_at 1920 1080 500 500) = Returns r'
    ∧ robot st' = Some r'
    ∧ getMousePos r' = {| x := 510; y := 495 |}
    ∧ (0 ≤ 510 ≤ 1920 - 1) ∧ (0 ≤ 495 ≤ 1080 - 1).
Proof.
  exact (move_sets_clamped_position stub_concat 1%nat (msg_move 10 (-5))
           10 (-5) 3000 desk socket_1 session_1 (stub_at 1920 1080 500 500)
           eq_refl eq_refl eq_refl eq_refl eq_refl eq_refl eq_refl eq_refl
           eq_refl).
Defined.



(** Client 1 asks for the id of client 2: the rename is carried out, the
    entry of client 2 is replaced and the old key of client 1 is gone. *)
Lemma rename_duplicate_not_rejected :
  ¬ rename_rejects_duplicate stub_concat desk 1%nat "session_2_2000" 3000.
Proof.
  intros Hclaim.
  destruct (Hclaim socket_1 session_1 session_2 eq_refl eq_refl eq_refl)
    as [Hkept _]; [done|].
  vm_compute in Hkept. discriminate Hkept.
Qed.

Lemma rename_duplicate_scenario :
  ∃ st',
    on_message stub_concat 1%nat (Some (msg_setSessionId "session_2_2000"))
      3000 desk = (Normal tt, st')
    ∧ (LogErrorProcessing ∉ drop (length (console desk)) (console st'))
    ∧ sessions st' !! KStr "session_2_2000"
      = Some (set_id (KStr "session_2_2000") (set_lastActivity 3000 session_1))
    ∧ sessions st' !! KStr "session_1_1000" = None
    ∧ (∀ k, k ≠ KStr "session_1_1000" → k ≠ KStr "session_2_2000" →
         sessions st' !! k = sessions desk !! k)
    ∧ size (sessions st') = pred (size (sessions desk))
    ∧ (ws_sessionId <$> sockets st' !! 1%nat) = Some (KStr "session_2_2000").
Proof.
  refine (rename_overwrites_duplicate stub_concat 1%nat
            (msg_setSessionId "session_2_2000") (JStr "session_2_2000") 3000
            desk socket_1 session_1 session_2 (stub_at 1920 1080 500 500)
            eq_refl eq_refl eq_refl eq_refl eq_refl eq_refl eq_refl eq_refl
            eq_refl _).
  discriminate.
Defined.

(** The rename scenario: [session_1_1000] becomes [client_abcd]. *)
Lemma rename_scenario :
  ∃ st' s' so',
    on_message stub_concat 1%nat (Some (msg_setSessionId "client_abcd"))
      3000 desk = (Normal tt, st')
    ∧ sessions st' !! KStr "client_abcd" = Some s'
    ∧ id s' = KStr "client_abcd"
    ∧ connectedAt s' = 1000 ∧ ip s' = "10.0.0.1" ∧ ws s' = 1%nat
    ∧ (KStr "session_1_1000" ≠ KStr "client_abcd" →
         sessions st' !! KStr "session_1_1000" = None)
    ∧ sockets st' !! 1%nat = Some so'
    ∧ ws_sessionId so' = KStr "client_abcd"
    ∧ readyState so' = OPEN.
Proof.
  exact (rename_moves_record stub_concat 1%nat
           (msg_setSessionId "client_abcd") (JStr "client_abcd") 3000
           desk socket_1 session_1 (stub_at 1920 1080 500 500)
           eq_refl eq_refl eq_refl eq_refl eq_refl eq_refl eq_refl).
Defined.

(** Without the capability the [setSessionId] of client 1 changes neither
    the registry keys nor the id the socket addresses. *)
Lemma headless_rename_is_dropped :
  ¬ headless_rename_takes_effect stub_concat headless 1%nat "client_abcd" 3000.
Proof.
  intros Hclaim.
  destruct (Hclaim eq_refl socket_1 session_1 eq_refl eq_refl) as [[s Hs] _].
  vm_compute in Hs. discriminate Hs.
Qed.

(** No-capability mode: [{type: "click"}] changes no socket and raises no
    error. *)
Lemma headless_click_scenario :
  ∃ st',
    on_message stub_concat 1%nat (Some msg_click) 3000 headless
    = (Normal tt, st')
    ∧ robot st' = None
    ∧ sockets st' = sockets headless
    ∧ dom (sessions st') = dom (sessions headless)
    ∧ (∀ k s, sessions headless !! k = Some s →
         sessions st' !! k = Some s
         ∨ (∃ so, sockets headless !! 1%nat = Some so ∧ ws_sessionId so = k
                  ∧ sessions st' !! k = Some (set_lastActivity 3000 s)))
    ∧ (∀ data ty so s,
         Some msg_click = Some data →
         get_prop data "type" = Some ty →
         sockets headless !! 1%nat = Some so →
         sessions headless !! ws_sessionId so = Some s →
         console st'
         = console headless
           ++ (if key_prints (id s) && prints ty
               then [LogReceived (id s) ty; LogRobotUnavailable]
               else [LogErrorProcessing])).
Proof.
  exact (headless_commands_are_noops stub_concat 1%nat (Some msg_click) 3000
           headless eq_refl).
Defined.

(** The payload [42] is not a command, yet it advances the [lastActivity]
    of the session of client 1. *)
Lemma number_payload_touches_session :
  ¬ drops_ill_formed stub_concat headless 1%nat (Some (JNum 42)) 3000.
Proof.
  intros Hclaim. specialize (Hclaim eq_refl).
  apply (f_equal (λ m, lastActivity <$> m !! KStr "session_1_1000")) in Hclaim.
  vm_compute in Hclaim. discriminate Hclaim.
Qed.

Lemma unparsable_scenario :
  on_message stub_concat 1%nat None 3000 desk
  = (Normal tt, console_log LogErrorProcessing desk).
Proof.
  exact (proj1 (unparsable_message_is_dropped stub_concat 1%nat 3000 desk)).
Defined.



(** A click of client 1 changes nothing in the registry but the
    [lastActivity] of its own session. *)
Lemma click_only_touches :
  let st' := step stub_concat desk (Message 1%nat (Some msg_click) 3000) in
  dom (sessions st') = dom (sessions desk)
  ∧ sockets st' = sockets desk
  ∧ ∀ k s,
      sessions desk !! k = Some s →
      ∃ s',
        sessions st' !! k = Some s'
        ∧ id s' = id s ∧ ws s' = ws s ∧ ip s' = ip s
        ∧ connectedAt s' = connectedAt s
        ∧ (lastActivity s' ≠ lastActivity s →
             lastActivity s' = 3000
             ∧ ∃ so, sockets desk !! 1%nat = Some so ∧ ws_sessionId so = k).
Proof.
  refine (other_messages_only_touch stub_concat 1%nat (Some msg_click) 3000
            desk _).
  intros data [= <-]. discriminate.
Defined.



(** The two generated ids differ. *)
Lemma two_clients_distinct : id session_1 ≠ id session_2.
Proof.
  refine (registered_ids_distinct stub_concat
            (Some (stub_at 1920 1080 500 500))
            [Connection 1%nat "10.0.0.1" 1000 1000 1000;
             Connection 2%nat "10.0.0.2" 2000 2000 2000]
            (KStr "session_1_1000") (KStr "session_2_2000")
            session_1 session_2 eq_refl eq_refl _).
  discriminate.
Defined.

(** * Further properties of the handlers *)

Section Further.
Context {R : Type} `{!Robot R}.
Variable concat_to_number : Z → json → jsnum.

Implicit Types (st : server (R:=R)) (c : conn) (k : session_key)
  (s : session) (data : json) (now : Z) (r : R).

(** *** Close and error *)

(** X1. The [close] handler removes the session the socket addresses,
    when the id of that session prints in the log of line 596, and no
    other entry; it marks nothing but that socket closed, and a second
    [close] on the same socket (or a [close] after the sweep has already
    evicted the session) leaves the registry as it is. *)
Theorem close_removes_only_own_session c now now' st so :
  sockets st !! c = Some so →
  (∀ s, sessions st !! ws_sessionId so = Some s → key_prints (id s) = true) →
  let st' := step concat_to_number st (Close c now) in
  sessions st' !! ws_sessionId so = None
  ∧ (∀ k, k ≠ ws_sessionId so → sessions st' !! k = sessions st !! k)
  ∧ sockets st' !! c = Some (set_readyState CLOSED so)
  ∧ (∀ c', c' ≠ c → sockets st' !! c' = sockets st !! c')
  ∧ sessions (step concat_to_number st' (Close c now')) = sessions st'.
Proof.
  intros Hso Hprint st'.
  assert (Hs' : sessions st' = delete (ws_sessionId so) (sessions st)).
  { subst st'. rewrite (on_close_sessions concat_to_number), Hso.
    destruct (sessions st !! ws_sessionId so) as [s|] eqn:Hs.
    - by rewrite (Hprint s).
    - by rewrite delete_id. }
  assert (Hso' : sockets st' !! c = Some (set_readyState CLOSED so)).
  { subst st'.
    by rewrite (on_close_sockets concat_to_number), lookup_alter_eq, Hso. }
  rewrite Hs'.
  split; [apply lookup_delete_eq|].
  split; [intros k Hk; by rewrite lookup_delete_ne|].
  split; [done|].
  split.
  { intros c' Hc'. subst st'.
    by rewrite (on_close_sockets concat_to_number), lookup_alter_ne. }
  rewrite (on_close_sessions concat_to_number), Hso'. cbn.
  by rewrite Hs', lookup_delete_eq.
Qed.

(** X2. A transport error on a socket whose session id is truthy (as is
    every key the server hands out or accepts) and prints in the log of
    line 604 removes the session the socket addresses and nothing else:
    unlike [close] it does not decrement [connectedClients] and does not
    change the socket. *)
Theorem error_removes_session_only c st so :
  sockets st !! c = Some so →
  key_truthy (ws_sessionId so) = true →
  key_prints (ws_sessionId so) = true →
  let st' := step concat_to_number st (Error c) in
  sessions st' = delete (ws_sessionId so) (sessions st)
  ∧ sockets st' = sockets st
  ∧ connectedClients st' = connectedClients st
  ∧ robot st' = robot st.
Proof.
  intros Hso Hk Hprint st'. subst st'.
  destruct (on_error_state concat_to_number c st) as (Hs & ? & ? & ? & ?).
  rewrite Hs, Hso, Hk, Hprint. done.
Qed.

(** *** Counters *)

Lemma on_message_counters c message now st :
  let st' := (on_message concat_to_number c message now st).2 in
  connectedClients st' = connectedClients st
  ∧ sessionIdCounter st' = sessionIdCounter st.
Proof.
  js_unfold. cbn.
  repeat (case_match; simplify_eq/=; try done).
Qed.

Lemma sweep_counters now st :
  let st' := step concat_to_number st (Sweep now) in
  connectedClients st' = connectedClients st
  ∧ sessionIdCounter st' = sessionIdCounter st
  ∧ robot st' = robot st.
Proof.
  cbv zeta. rewrite (sweep_state concat_to_number).
  assert (Hloop :
    let st1 := (sweep_loop now (order st) 0 st).2 in
    connectedClients st1 = connectedClients st
    ∧ sessionIdCounter st1 = sessionIdCounter st
    ∧ robot st1 = robot st).
  { by apply sweep_loop_inv. }
  destruct (sweep_loop now (order st) 0 st) as [[n|] st1]; [|done].
  by case_decide.
Qed.

Lemma step_counters st e :
  let st' := step concat_to_number st e in
  connectedClients st'
  = connectedClients st + (if is_connection e then 1 else 0)
    - (if is_close e then 1 else 0)
  ∧ sessionIdCounter st'
    = sessionIdCounter st + (if is_connection e then 1 else 0).
Proof.
  intros st'. subst st'.
  destruct e as [c addr t1 t2 t3|c message now|c now|c|now].
  - unfold step. cbn [handler].
    unfold on_connection, generateSessionId. js_unfold. cbn. lia.
  - unfold step. cbn [handler].
    destruct (on_message_counters c message now st) as [-> ->]. cbn. lia.
  - unfold step. cbn [handler]. unfold on_close. js_unfold. cbn.
    destruct (alter _ c (sockets st) !! c) as [so|]; cbn; [|lia].
    destruct (sessions st !! ws_sessionId so) as [s|]; cbn; [|lia].
    destruct (key_prints (id s)); cbn; lia.
  - destruct (on_error_state concat_to_number c st) as (_ & _ & -> & -> & _).
    cbn. lia.
  - destruct (sweep_counters now st) as (-> & -> & _).
    cbn [is_connection is_close]. lia.
Qed.

(** X3. Over any trace of events, [connectedClients] is the number of
    connections minus the number of closes, and [sessionIdCounter] is the
    number of connections: messages, errors and sweeps change neither. *)
Theorem counters_follow_connections st evs :
  let st' := run concat_to_number st evs in
  connectedClients st'
  = connectedClients st + count_events is_connection evs
    - count_events is_close evs
  ∧ sessionIdCounter st'
    = sessionIdCounter st + count_events is_connection evs.
Proof.
  revert st. unfold count_events.
  induction evs as [|e evs IH]; intros st; cbn [run foldl].
  { cbn. lia. }
  destruct (IH (step concat_to_number st e)) as [IH1 IH2].
  unfold run in IH1, IH2. rewrite IH1, IH2.
  destruct (step_counters st e) as [-> ->]. cbn [List.filter].
  destruct (is_connection e), (is_close e); cbn [length]; lia.
Qed.

(** *** Generated session ids *)

Lemma pretty_N_char_underscore (d : N) :
  Ascii.eqb (pretty_N_char d) "_"%char = false.
Proof. unfold pretty_N_char. by repeat case_match. Qed.

Lemma pretty_N_go_underscore_free (n : N) acc :
  underscore_free acc = true → underscore_free (pretty_N_go n acc) = true.
Proof.
  revert acc. induction (N.lt_wf_0 n) as [n _ IH]; intros acc Hacc.
  destruct (decide (n = 0)%N) as [->|Hn]; [by rewrite pretty_N_go_0|].
  rewrite pretty_N_go_step by lia. apply IH; [apply N.div_lt; lia|].
  cbn. by rewrite pretty_N_char_underscore.
Qed.

Lemma pretty_Z_underscore_free (n : Z) :
  0 ≤ n → underscore_free (pretty n) = true.
Proof.
  destruct n as [|p|p]; [done| |lia]. intros _.
  unfold pretty, pretty_Z, pretty, pretty_positive, pretty, pretty_N.
  case_decide; [done|]. by apply pretty_N_go_underscore_free.
Qed.

(** The first underscore delimits a prefix without underscores. *)
Lemma underscore_delimits a b rest1 rest2 :
  underscore_free a = true → underscore_free b = true →
  a +:+ "_" +:+ rest1 = b +:+ "_" +:+ rest2 → a = b ∧ rest1 = rest2.
Proof.
  revert b. induction a as [|x a IH]; intros [|y b] Ha Hb Heq; cbn in *.
  - by simplify_eq.
  - injection Heq as <- _. by rewrite Ascii.eqb_refl in Hb.
  - injection Heq as -> _. by rewrite Ascii.eqb_refl in Ha.
  - apply andb_prop in Ha as [_ Ha]. apply andb_prop in Hb as [_ Hb].
    injection Heq as -> Heq. destruct (IH b Ha Hb Heq) as [-> ->]. done.
Qed.

Lemma generated_id_counter n m t u :
  0 ≤ n → 0 ≤ m → generated_id n t = generated_id m u → n = m.
Proof.
  intros Hn Hm [= Heq].
  apply underscore_delimits in Heq as [Hnm _];
    [|by apply pretty_Z_underscore_free..].
  by apply (inj pretty).
Qed.

(** X4. The ids the server generates are injective in the counter and the
    clock reading: two generated ids are equal only when both parts are. *)
Theorem generated_id_inj n m t u :
  0 ≤ n → 0 ≤ m →
  generated_id n t = generated_id m u → n = m ∧ t = u.
Proof.
  intros Hn Hm [= Heq].
  apply underscore_delimits in Heq as [Hnm Htu];
    [|by apply pretty_Z_underscore_free..].
  split; by apply (inj pretty).
Qed.

Lemma on_connection_state c addr t1 t2 t3 st :
  let k := generated_id (sessionIdCounter st + 1) t1 in
  let st' := step concat_to_number st (Connection c addr t1 t2 t3) in
  sessions st'
  = <[k := {| id := k; ws := c; ip := addr;
              connectedAt := t2; lastActivity := t3 |}]> (sessions st)
  ∧ sockets st' = <[c := {| ws_sessionId := k; readyState := OPEN |}]> (sockets st)
  ∧ robot st' = robot st.
Proof. done. Qed.

Lemma step_headless st e :
  robot st = None → robot (step concat_to_number st e) = None.
Proof.
  intros Hr.
  destruct e as [c addr t1 t2 t3|c message now|c now|c|now].
  - done.
  - unfold step. cbn [handler].
    rewrite (on_message_headless concat_to_number) by done. cbn.
    by repeat case_match.
  - unfold step. cbn [handler]. unfold on_close. js_unfold. cbn.
    destruct (alter _ c (sockets st) !! c) as [so|]; cbn; [|done].
    destruct (sessions st !! ws_sessionId so) as [s|]; cbn; [|done].
    by destruct (key_prints (id s)).
  - destruct (on_error_state concat_to_number c st) as (_ & _ & _ & _ & Hr').
    by rewrite Hr'.
  - destruct (sweep_counters now st) as (_ & _ & Hr'). by rewrite Hr'.
Qed.

Lemma keys_generated_subset st st' :
  (∀ k, is_Some (sessions st' !! k) → is_Some (sessions st !! k)) →
  sessionIdCounter st ≤ sessionIdCounter st' →
  keys_generated st → keys_generated st'.
Proof.
  intros Hsub Hn Hgen k Hk. destruct (Hgen k (Hsub k Hk)) as (n & t & ? & ->).
  exists n, t. split; [lia|done].
Qed.

Lemma step_keys_generated st e :
  robot st = None → 0 ≤ sessionIdCounter st →
  keys_generated st → keys_generated (step concat_to_number st e).
Proof.
  intros Hr Hn Hgen.
  destruct (step_counters st e) as [_ Hcount].
  destruct e as [c addr t1 t2 t3|c message now|c now|c|now].
  - destruct (on_connection_state c addr t1 t2 t3 st) as (Hs & _ & _).
    cbn [is_connection] in Hcount.
    intros k. rewrite Hs, Hcount, lookup_insert_is_Some.
    intros [<-|[_ Hk]].
    + exists (sessionIdCounter st + 1), t1. split; [lia|done].
    + destruct (Hgen k Hk) as (n & t & ? & ->). exists n, t.
      split; [lia|done].
  - apply (keys_generated_subset st); [|cbn [is_connection] in Hcount; lia|done].
    unfold step. cbn [handler].
    destruct (on_message_effect concat_to_number c message now st)
      as [Heq _ | so s Hso Hs _ Heq _
          | so s data j r _ _ _ Hrobot _ _ _ newId _ _].
    + intros k. by rewrite Heq.
    + intros k. rewrite Heq, lookup_insert_is_Some.
      intros [<-|[_ ?]]; eauto.
    + by rewrite Hr in Hrobot.
  - apply (keys_generated_subset st); [|cbn [is_connection] in Hcount; lia|done].
    intros k. rewrite (on_close_sessions concat_to_number).
    repeat case_match; try done.
    rewrite lookup_delete_is_Some. by intros [_ ?].
  - apply (keys_generated_subset st); [|cbn [is_connection] in Hcount; lia|done].
    intros k.
    destruct (on_error_state concat_to_number c st) as (Hs & _).
    rewrite Hs. repeat case_match; try done.
    rewrite lookup_delete_is_Some. by intros [_ ?].
  - apply (keys_generated_subset st); [|cbn [is_connection] in Hcount; lia|done].
    intros k [s Hk]. exists s.
    by eapply lookup_weaken; [|apply (sweep_step_subseteq concat_to_number)].
Qed.

Lemma run_headless_keys_generated st evs :
  robot st = None → 0 ≤ sessionIdCounter st → keys_generated st →
  let st' := run concat_to_number st evs in
  robot st' = None ∧ 0 ≤ sessionIdCounter st' ∧ keys_generated st'.
Proof.
  revert st. induction evs as [|e evs IH]; intros st Hr Hn Hgen; [done|].
  cbn [run foldl]. apply IH.
  - by apply step_headless.
  - destruct (step_counters st e) as [_ ->]. case_match; lia.
  - by apply step_keys_generated.
Qed.

(** X5. On a server without the capability (where no rename is ever
    carried out) every key of the registry is a generated id, so a new
    connection never lands on an existing entry: it adds exactly one
    session. *)
Theorem headless_connection_is_fresh evs c addr t1 t2 t3 :
  let st := run concat_to_number (initial None) evs in
  let st' := step concat_to_number st (Connection c addr t1 t2 t3) in
  sessions st !! generated_id (sessionIdCounter st + 1) t1 = None
  ∧ size (sessions st') = S (size (sessions st)).
Proof.
  intros st st'.
  destruct (run_headless_keys_generated (initial None) evs)
    as (Hr & Hn & Hgen); [done..| |].
  { intros k [s Hk]. cbn in Hk. by rewrite lookup_empty in Hk. }
  fold st in Hr, Hn, Hgen.
  assert (Hfresh : sessions st !! generated_id (sessionIdCounter st + 1) t1 = None).
  { apply eq_None_not_Some. intros Hk.
    destruct (Hgen _ Hk) as (n & t & Hle & Heq).
    apply generated_id_counter in Heq; lia. }
  split; [done|]. subst st'.
  destruct (on_connection_state c addr t1 t2 t3 st) as (-> & _ & _).
  by apply map_size_insert_None.
Qed.

(** *** More on the cleanup sweep *)

(** When the keys of the expired sessions print, the loop ends, and it
    has counted the entries it removed. *)
Lemma sweep_loop_count now keys st n :
  expired_keys_print now st →
  ∃ st1 n1,
    sweep_loop now keys n st = (Normal n1, st1)
    ∧ n1 - n
      = Z.of_nat (size (sessions st)) - Z.of_nat (size (sessions st1)).
Proof.
  revert st n. induction keys as [|k keys IH]; intros st n Hprint.
  { exists st, n. split; [done|]. lia. }
  destruct (sessions st !! k) as [s|] eqn:Hk.
  - destruct (decide (expired now s)) as [Hexp|Hexp].
    + rewrite (sweep_loop_expired now k keys n st s);
        [|done..|by apply (Hprint k s)].
      set (st0 := evict k s (round_seconds (now - lastActivity s)) st).
      destruct (IH st0 (n + 1)) as (st1 & n1 & Hloop & Hcount).
      { by apply expired_keys_print_evict. }
      exists st1, n1. split; [done|].
      assert (Hsize : size (sessions st) = S (size (sessions st0))).
      { cbn. rewrite map_size_delete, Hk.
        assert (size (sessions st) ≠ 0%nat); [|lia].
        intros Hz%map_size_empty_inv. by rewrite Hz, lookup_empty in Hk. }
      lia.
    + rewrite (sweep_loop_fresh now k keys n st s) by done. by apply IH.
  - rewrite sweep_loop_absent by done. by apply IH.
Qed.

Lemma sweep_loop_nothing now keys st n :
  (∀ k s, sessions st !! k = Some s → ¬ expired now s) →
  sweep_loop now keys n st = (Normal n, st).
Proof.
  intros Hnone. induction keys as [|k keys IH]; [done|].
  destruct (sessions st !! k) as [s|] eqn:Hk.
  - rewrite (sweep_loop_fresh now k keys n st s); [done..|]. by eapply Hnone.
  - by rewrite sweep_loop_absent.
Qed.

Lemma sweep_nothing_expired now st :
  (∀ k s, sessions st !! k = Some s → ¬ expired now s) →
  step concat_to_number st (Sweep now) = st.
Proof.
  intros Hnone. rewrite (sweep_state concat_to_number).
  rewrite sweep_loop_nothing by done. by rewrite decide_False by lia.
Qed.

Lemma sweep_survivor_fresh now st k s :
  order_ok st → expired_keys_print now st →
  sessions (step concat_to_number st (Sweep now)) !! k = Some s →
  sessions st !! k = Some s ∧ ¬ expired now s.
Proof.
  intros Hok Hprint Hk.
  assert (Hin : sessions st !! k = Some s).
  { by eapply lookup_weaken;
      [|apply (sweep_step_subseteq concat_to_number)]. }
  split; [done|]. intros Hexp.
  rewrite (sweep_step_sessions concat_to_number) in Hk.
  rewrite (sweep_loop_deletes now (order st) st 0 k s) in Hk; try done.
  by eapply order_ok_elem.
Qed.

(** X6. When the key of every expired session prints in the log of line
    489, the registry after a sweep is the registry before it, filtered
    by [now - lastActivity <= SESSION_TIMEOUT].  The map is well formed
    ([order_ok]), as it is in every state the server reaches. *)
Theorem sweep_is_filter now st :
  order_ok st →
  expired_keys_print now st →
  sessions (step concat_to_number st (Sweep now))
  = filter (λ kv, ¬ expired now kv.2) (sessions st).
Proof.
  intros Hok Hprint. apply map_eq. intros k. apply option_eq.
  intros s. rewrite map_lookup_filter_Some. cbn. split.
  - intros Hk.
    assert (Hin : sessions st !! k = Some s).
    { by eapply lookup_weaken;
        [|apply (sweep_step_subseteq concat_to_number)]. }
    split; [done|]. intros Hexp.
    rewrite (sweep_step_sessions concat_to_number) in Hk.
    rewrite (sweep_loop_deletes now (order st) st 0 k s) in Hk; try done.
    by eapply order_ok_elem.
  - intros [Hk Hfresh]. by apply sweep_keeps_fresh.
Qed.

(** X7. A sweep that finds no expired session changes nothing at all, not
    even the console.  When the key of every expired session prints, a
    sweep that removes sessions reports in its last console line the
    number of sessions it removed and the number that remain. *)
Theorem sweep_reports_evictions now st :
  expired_keys_print now st →
  let st' := step concat_to_number st (Sweep now) in
  let evicted := (size (sessions st) - size (sessions st'))%nat in
  ((∀ k s, sessions st !! k = Some s → ¬ expired now s) → st' = st)
  ∧ (size (sessions st') ≤ size (sessions st))%nat
  ∧ (0 < evicted →
       last (console st')
       = Some (LogCleaned (Z.of_nat evicted) (size (sessions st'))))%nat.
Proof.
  intros Hprint st' evicted.
  assert (Hle : (size (sessions st') ≤ size (sessions st))%nat).
  { apply map_subseteq_size, sweep_step_subseteq. }
  split; [|split; [done|]].
  - intros Hnone. by apply sweep_nothing_expired.
  - subst evicted st'. revert Hle.
    rewrite (sweep_state concat_to_number).
    destruct (sweep_loop_count now (order st) st 0 Hprint)
      as (st1 & n & -> & Hcount).
    assert (Hs : sessions
              (if decide (n > 0)
               then console_log (LogCleaned n (size (sessions st1))) st1
               else st1) = sessions st1) by (by case_decide).
    rewrite Hs. intros Hle Hpos.
    rewrite decide_True by lia. cbn. rewrite last_snoc.
    do 2 f_equal. lia.
Qed.

(** X8. After a sweep, on a well-formed map, in which the key of every
    expired session printed, sweeping again, at the same time or an
    earlier one, does nothing: no session is removed, no socket closed
    and no line logged. *)
Theorem sweep_is_idempotent now now' st :
  order_ok st →
  expired_keys_print now st →
  now' ≤ now →
  step concat_to_number (step concat_to_number st (Sweep now)) (Sweep now')
  = step concat_to_number st (Sweep now).
Proof.
  intros Hok Hprint Hle. apply sweep_nothing_expired. intros k s Hk.
  apply sweep_survivor_fresh in Hk as [_ Hfresh]; [|done..].
  unfold expired in *. lia.
Qed.

(** A sweep keeps the session id every socket addresses. *)
Lemma sweep_keeps_ws_sessionId now st c so :
  sockets st !! c = Some so →
  ∃ so', sockets (step concat_to_number st (Sweep now)) !! c = Some so'
         ∧ ws_sessionId so' = ws_sessionId so.
Proof.
  intros Hso. rewrite (sweep_step_sockets concat_to_number).
  apply (sweep_loop_inv now (λ st0,
    ∃ so', sockets st0 !! c = Some so' ∧ ws_sessionId so' = ws_sessionId so));
    [eauto|].
  intros st0 k s _ _ _ (so' & Hso' & Hid). cbn.
  destruct (decide (ws s = c)) as [->|Hne].
  - rewrite lookup_alter_eq, Hso'. cbn. eexists. split; [done|].
    rewrite <-Hid. unfold ws_close. by destruct (readyState so').
  - rewrite lookup_alter_ne by done. eauto.
Qed.



Lemma on_message_unregistered c data now st so :
  sockets st !! c = Some so →
  sessions st !! ws_sessionId so = None →
  on_message concat_to_number c (Some data) now st = (Normal tt, st).
Proof.
  intros Hso Hs. js_unfold. cbn. rewrite Hso. cbn. by rewrite Hs.
Qed.

(** X10. Once a sweep, on a well-formed map, in which the key of every
    expired session printed has evicted the session of a socket, the
    commands that still arrive on that socket are ignored: nothing is
    logged, no session is touched and the capability is not called. *)
Theorem evicted_session_commands_are_ignored c data t now st so s :
  order_ok st →
  expired_keys_print now st →
  sockets st !! c = Some so →
  sessions st !! ws_sessionId so = Some s →
  now - lastActivity s > SESSION_TIMEOUT →
  let st' := step concat_to_number st (Sweep now) in
  on_message concat_to_number c (Some data) t st' = (Normal tt, st').
Proof.
  intros Hok Hprint Hso Hs Hexp st'. subst st'.
  destruct (sweep_keeps_ws_sessionId now st c so Hso) as (so' & Hso' & Hid).
  apply (on_message_unregistered c data t _ so' Hso').
  rewrite Hid, (sweep_step_sessions concat_to_number).
  apply (sweep_loop_deletes now _ st 0 _ s); try done.
  by eapply order_ok_elem.
Qed.

(** *** Dispatch *)

(** X11. On a session whose id prints, a [scroll] whose deltas are
    numbers or are absent calls [scrollMouse] with those numbers, an
    absent delta counting as 0; whether the call returns or throws the
    handler returns, and the scroll is logged only when the call
    returned. *)
Theorem scroll_defaults_to_zero c data now st so s r deltaX deltaY :
  sockets st !! c = Some so →
  sessions st !! ws_sessionId so = Some s →
  key_prints (id s) = true →
  robot st = Some r →
  get_prop data "type" = Some (Some (JStr "scroll")) →
  get_prop data "deltaX" = Some deltaX →
  get_prop data "deltaY" = Some deltaY →
  is_optional_number deltaX = true →
  is_optional_number deltaY = true →
  let call :=
    scrollMouse (Some (JNum (scroll_amount deltaX)))
      (Some (JNum (scroll_amount deltaY))) r in
  ∃ st' r',
    on_message concat_to_number c (Some data) now st = (Normal tt, st')
    ∧ robot st' = Some r'
    ∧ (call = Returns r'
         ∧ console st'
           = console st ++ [LogReceived (id s) (Some (JStr "scroll"));
                            LogScroll (id s) deltaX deltaY]
       ∨ call = Throws r'
         ∧ console st'
           = console st ++ [LogReceived (id s) (Some (JStr "scroll"));
                            LogErrorProcessing]).
Proof.
  intros Hso Hs Hid Hr Hty Hdx Hdy Hx Hy call. subst call.
  assert (Hzero : ∀ v, is_optional_number v = true →
    or_zero v = Some (JNum (scroll_amount v))).
  { intros [[]|]; try done. intros _. unfold or_zero, truthy. cbn.
    destruct (Z.eqb_spec n 0) as [->|]; done. }
  assert (Hprints : ∀ v, is_optional_number v = true → prints v = true).
  { by intros [[]|]. }
  js_unfold. cbn. rewrite Hso. cbn. rewrite Hs. cbn. rewrite Hid, Hty. cbn.
  rewrite Hr. cbn. rewrite Hdx, Hdy. cbn. rewrite !Hzero by done.
  destruct (scrollMouse _ _ r) as [r'|r'] eqn:Hcall; cbn;
    rewrite ?Hprints by done; cbn;
    eexists _, r'; (split; [reflexivity|]); cbn;
    (split; [done|]); [left|right]; (split; [done|]);
    by rewrite <-?app_assoc.
Qed.

(** X12. On a session whose id prints, a [click] calls [mouseClick()]
    and a [rightClick] calls [mouseClick('right')], once; the click is
    logged when the call returned and the error when it threw, and the
    handler returns in both cases. *)
Theorem clicks_reach_capability c data now st so s r (right : bool) :
  sockets st !! c = Some so →
  sessions st !! ws_sessionId so = Some s →
  key_prints (id s) = true →
  robot st = Some r →
  let ty := JStr (if right then "rightClick" else "click") in
  let button := if right then Some "right" else None in
  let logged := if right then LogRightClick (id s) else LogLeftClick (id s) in
  get_prop data "type" = Some (Some ty) →
  ∃ st' r',
    on_message concat_to_number c (Some data) now st = (Normal tt, st')
    ∧ robot st' = Some r'
    ∧ (mouseClick button r = Returns r'
         ∧ console st' = console st ++ [LogReceived (id s) (Some ty); logged]
       ∨ mouseClick button r = Throws r'
         ∧ console st'
           = console st ++ [LogReceived (id s) (Some ty); LogErrorProcessing]).
Proof.
  intros Hso Hs Hid Hr ty button logged Hty. subst ty button logged.
  js_unfold. cbn. rewrite Hso. cbn. rewrite Hs. cbn. rewrite Hid, Hty. cbn.
  destruct right; cbn; rewrite Hr; unfold is_type; cbn;
    (destruct (mouseClick _ r) as [r'|r'] eqn:Hcall; cbn;
     eexists _, r'; (split; [reflexivity|]); cbn;
     (split; [done|]); [left|right]; (split; [done|]);
     by rewrite <-?app_assoc).
Qed.

(** X13. A message whose type prints and is none of the five the
    [switch] knows, on a session whose id prints, is accepted and
    dropped: the session is touched, the type is logged, and neither the
    capability nor any socket changes. *)
Theorem unknown_type_is_dropped c data ty now st so s r :
  sockets st !! c = Some so →
  sessions st !! ws_sessionId so = Some s →
  key_prints (id s) = true →
  robot st = Some r →
  get_prop data "type" = Some ty →
  prints ty = true →
  known_type ty = false →
  on_message concat_to_number c (Some data) now st
  = (Normal tt,
     console_log (LogReceived (id s) ty)
       (with_sessions (insert (ws_sessionId so) (set_lastActivity now s)) st)).
Proof.
  intros Hso Hs Hid Hr Hty Hprints Hknown. unfold known_type in Hknown.
  repeat (apply orb_false_elim in Hknown as [Hknown ?]).
  js_unfold. cbn. rewrite Hso. cbn. rewrite Hs. cbn.
  rewrite Hid, Hty. cbn. rewrite Hprints. cbn. rewrite Hr. cbn.
  by repeat case_match.
Qed.

(** The state an in-range [move] leaves. *)
Lemma step_move_in_range `{!RobotMoves R} c dx dy now st so s r :
  sockets st !! c = Some so →
  sessions st !! ws_sessionId so = Some s →
  key_prints (id s) = true →
  robot st = Some r →
  0 ≤ x (getMousePos r) + dx ≤ width (getScreenSize r) - 1 →
  0 ≤ y (getMousePos r) + dy ≤ height (getScreenSize r) - 1 →
  ∃ r1,
    step concat_to_number st (Message c (Some (msg_move dx dy)) now)
    = with_robot r1
        (console_log (LogReceived (id s) (Some (JStr "move")))
           (with_sessions
              (insert (ws_sessionId so) (set_lastActivity now s)) st))
    ∧ getScreenSize r1 = getScreenSize r
    ∧ getMousePos r1
      = {| x := x (getMousePos r) + dx; y := y (getMousePos r) + dy |}.
Proof.
  intros Hso Hs Hid Hr Hx Hy.
  destruct (moveMouse_returns (x (getMousePos r) + dx)
              (y (getMousePos r) + dy) r) as [r1 Hcall].
  exists r1. split; [|split].
  - unfold step. cbn [handler].
    erewrite (on_message_move concat_to_number c (msg_move dx dy)
                (Some (JNum dx)) (Some (JNum dy))
                (Num (x (getMousePos r) + dx))
                (Num (y (getMousePos r) + dy)));
      eauto; try reflexivity.
    + rewrite clamp_expr_num by lia. unfold clamp.
      destruct (Z.ltb_spec (x (getMousePos r) + dx) 0),
        (Z.ltb_spec (width (getScreenSize r) - 1) (x (getMousePos r) + dx));
        try lia.
      reflexivity.
    + rewrite clamp_expr_num by lia. unfold clamp.
      destruct (Z.ltb_spec (y (getMousePos r) + dy) 0),
        (Z.ltb_spec (height (getScreenSize r) - 1) (y (getMousePos r) + dy));
        try lia.
      reflexivity.
  - by eapply moveMouse_screen.
  - by eapply moveMouse_pos.
Qed.

(** X14. Two moves in a row from the same client, whose session id
    prints, add up: when the first one is not clamped, the pointer ends
    where a single move by the sum of the deltas would put it. *)
Theorem moves_add_up `{!RobotMoves R}
    c dx1 dy1 dx2 dy2 t1 t2 st so s r :
  sockets st !! c = Some so →
  sessions st !! ws_sessionId so = Some s →
  key_prints (id s) = true →
  robot st = Some r →
  let w := width (getScreenSize r) in
  let h := height (getScreenSize r) in
  let px := x (getMousePos r) in
  let py := y (getMousePos r) in
  0 ≤ px + dx1 ≤ w - 1 →
  0 ≤ py + dy1 ≤ h - 1 →
  ∃ r',
    robot (run concat_to_number st
             [Message c (Some (msg_move dx1 dy1)) t1;
              Message c (Some (msg_move dx2 dy2)) t2]) = Some r'
    ∧ getMousePos r'
      = {| x := clamp (px + (dx1 + dx2)) 0 (w - 1);
           y := clamp (py + (dy1 + dy2)) 0 (h - 1) |}.
Proof.
  intros Hso Hs Hid Hr w h px py Hx Hy. cbn [run foldl].
  destruct (step_move_in_range c dx1 dy1 t1 st so s r)
    as (r1 & -> & Hscreen1 & Hpos1); try done.
  set (nx := clamp (px + (dx1 + dx2)) 0 (w - 1)).
  set (ny := clamp (py + (dy1 + dy2)) 0 (h - 1)).
  destruct (moveMouse_returns nx ny r1) as [r2 Hcall2].
  exists r2. split; [|by eapply moveMouse_pos].
  unfold step. cbn [handler].
  erewrite (on_message_move concat_to_number c (msg_move dx2 dy2)
              (Some (JNum dx2)) (Some (JNum dy2)) (Num nx) (Num ny));
    [reflexivity|done|..]; try reflexivity.
  - cbn. apply lookup_insert_eq.
  - done.
  - cbn [robot with_robot getScreenSize]. rewrite Hscreen1, Hpos1.
    cbn [x y]. rewrite clamp_expr_num by (subst w h px py; lia).
    subst nx px w. by rewrite Z.add_assoc.
  - cbn [robot with_robot getScreenSize]. rewrite Hscreen1, Hpos1.
    cbn [x y]. rewrite clamp_expr_num by (subst w h px py; lia).
    subst ny py h. by rewrite Z.add_assoc.
  - exact Hcall2.
Qed.

(** *** How the registry operations compose *)

(** X15. A connection followed by its close gives the registry back as it
    was, provided the generated id was free. *)
Theorem connect_then_close_restores_registry c addr t1 t2 t3 t4 st :
  sessions st !! generated_id (sessionIdCounter st + 1) t1 = None →
  sessions (run concat_to_number st
              [Connection c addr t1 t2 t3; Close c t4])
  = sessions st.
Proof.
  intros Hfree. cbn [run foldl].
  destruct (on_connection_state c addr t1 t2 t3 st) as (Hs & Hsock & _).
  rewrite (on_close_sessions concat_to_number), Hsock, lookup_insert_eq, Hs.
  cbn. rewrite lookup_insert_eq. cbn.
  by apply delete_insert_id.
Qed.

(** X16. After a rename in which the old and the new id print, the close
    of the connection removes the record under its new id: neither the
    old nor the new key stays behind. *)
Theorem rename_then_close_leaves_no_record c data j t t' st so s r :
  sockets st !! c = Some so →
  sessions st !! ws_sessionId so = Some s →
  key_prints (id s) = true →
  robot st = Some r →
  get_prop data "type" = Some (Some (JStr "setSessionId")) →
  get_prop data "sessionId" = Some (Some j) →
  truthy (Some j) = true →
  prints (Some j) = true →
  let newId := key_of_json (next_stamp st) j in
  sessions (run concat_to_number st [Message c (Some data) t; Close c t'])
  = delete newId (delete (ws_sessionId so) (sessions st)).
Proof.
  intros Hso Hs Hid Hr Hty Hsid Htruthy Hj newId. cbn [run foldl].
  destruct (on_message_rename concat_to_number c data j t st so s r)
    as (st1 & Hrun & Hsessions & Hsockets & _); try done.
  unfold step at 2. cbn [handler]. rewrite Hrun. cbn.
  rewrite (on_close_sessions concat_to_number), Hsockets, lookup_alter_eq, Hso.
  cbn. rewrite Hsessions. fold newId. rewrite lookup_insert_eq. cbn.
  subst newId. rewrite key_prints_key_of_json, Hj.
  by rewrite delete_insert_eq.
Qed.

(** X17. When a client whose session id prints renames its session onto
    the id of another connection, that other connection addresses the
    renamer's record from then on: its close removes the record of the
    client that renamed, whose socket stays open without a session. *)
Theorem collision_then_close_removes_renamer
    c1 c2 data j t t' st so1 so2 s1 r :
  c1 ≠ c2 →
  sockets st !! c1 = Some so1 →
  sockets st !! c2 = Some so2 →
  sessions st !! ws_sessionId so1 = Some s1 →
  key_prints (id s1) = true →
  robot st = Some r →
  get_prop data "type" = Some (Some (JStr "setSessionId")) →
  get_prop data "sessionId" = Some (Some j) →
  truthy (Some j) = true →
  prints (Some j) = true →
  key_of_json (next_stamp st) j = ws_sessionId so2 →
  let renamed := step concat_to_number st (Message c1 (Some data) t) in
  let st' := step concat_to_number renamed (Close c2 t') in
  sessions renamed !! ws_sessionId so2
  = Some (set_id (ws_sessionId so2) (set_lastActivity t s1))
  ∧ sessions st' !! ws_sessionId so2 = None
  ∧ sessions st' !! ws_sessionId so1 = None
  ∧ sockets st' !! c1 = Some (set_ws_sessionId (ws_sessionId so2) so1).
Proof.
  intros Hne Hso1 Hso2 Hs1 Hid Hr Hty Hsid Htruthy Hj Hkey renamed st'.
  destruct (on_message_rename concat_to_number c1 data j t st so1 s1 r)
    as (st1 & Hrun & Hsessions & Hsockets & _); try done.
  assert (Hrenamed : renamed = st1).
  { subst renamed. unfold step. cbn [handler]. by rewrite Hrun. }
  assert (Hprint2 : key_prints (ws_sessionId so2) = true).
  { by rewrite <-Hkey, key_prints_key_of_json. }
  rewrite Hkey in Hsessions, Hsockets.
  assert (Hso2' : sockets st1 !! c2 = Some so2).
  { by rewrite Hsockets, lookup_alter_ne. }
  subst st'.
  rewrite Hrenamed, (on_close_sessions concat_to_number),
    (on_close_sockets concat_to_number), Hso2'.
  rewrite Hsessions, Hsockets, lookup_insert_eq. cbn. rewrite Hprint2.
  split; [done|].
  split; [by rewrite lookup_delete_eq|].
  split.
  - rewrite delete_insert_eq.
    destruct (decide (ws_sessionId so2 = ws_sessionId so1)) as [->|Hk].
    + by rewrite lookup_delete_eq.
    + by rewrite lookup_delete_ne, lookup_delete_eq.
  - by rewrite lookup_alter_ne, lookup_alter_eq, Hso1.
Qed.

(** X18. A rename to the id the session already has is a touch: the
    registry keeps its keys, the record only gets a new [lastActivity],
    and the socket is as before. *)
Theorem rename_to_own_id_is_touch c data j now st so s r :
  sockets st !! c = Some so →
  sessions st !! ws_sessionId so = Some s →
  id s = ws_sessionId so →
  robot st = Some r →
  get_prop data "type" = Some (Some (JStr "setSessionId")) →
  get_prop data "sessionId" = Some (Some j) →
  truthy (Some j) = true →
  key_of_json (next_stamp st) j = ws_sessionId so →
  let st' := step concat_to_number st (Message c (Some data) now) in
  sessions st' = <[ws_sessionId so := set_lastActivity now s]> (sessions st)
  ∧ sockets st' = sockets st.
Proof.
  intros Hso Hs Hid Hr Hty Hsid Htruthy Hkey st'.
  destruct (key_prints (id s)) eqn:Hprint.
  - destruct (on_message_rename concat_to_number c data j now st so s r)
      as (st1 & Hrun & Hsessions & Hsockets & _); try done.
    subst st'. unfold step. cbn [handler]. rewrite Hrun. cbn.
    rewrite Hsessions, Hsockets, Hkey. split.
    + rewrite insert_delete_eq. f_equal.
      destruct s. cbn in *. by subst.
    + apply alter_id. intros so' Hso'. rewrite Hso in Hso'.
      injection Hso' as <-. by destruct so.
  - subst st'. unfold step. cbn [handler]. js_unfold.
    cbn. rewrite Hso. cbn. rewrite Hs. cbn. by rewrite Hprint.
Qed.

(** *** What no message does *)

Lemma step_size st e :
  (size (sessions (step concat_to_number st e))
   ≤ size (sessions st) + (if is_connection e then 1 else 0))%nat.
Proof.
  destruct e as [c addr t1 t2 t3|c message now|c now|c|now];
    cbn [is_connection].
  - destruct (on_connection_state c addr t1 t2 t3 st) as (-> & _ & _).
    rewrite map_size_insert. case_match; cbn; lia.
  - unfold step. cbn [handler].
    destruct (on_message_effect concat_to_number c message now st)
      as [Heq _ | so s Hso Hs _ Heq _
          | so s data j r _ Hs _ _ _ _ _ newId Heq _]; rewrite Heq.
    + lia.
    + rewrite map_size_insert_Some by eauto. lia.
    + rewrite map_size_insert, map_size_delete, Hs.
      assert (size (sessions st) ≠ 0%nat).
      { intros Hz%map_size_empty_inv. by rewrite Hz, lookup_empty in Hs. }
      case_match; cbn; lia.
  - rewrite (on_close_sessions concat_to_number).
    repeat case_match; try lia.
    rewrite map_size_delete. case_match; unfold Datatypes.id; lia.
  - destruct (on_error_state concat_to_number c st) as (Hs & _).
    rewrite Hs. repeat case_match; try lia.
    rewrite map_size_delete. case_match; unfold Datatypes.id; lia.
  - pose proof (map_subseteq_size _ _
                  (sweep_step_subseteq concat_to_number now st)). lia.
Qed.

(** X19. Only connections add sessions: over any trace the registry has
    at most as many entries more than at the start as connections were
    accepted, whatever messages (renames included), closes, errors and
    sweeps occur. *)
Theorem registry_grows_only_by_connections st evs :
  (Z.of_nat (size (sessions (run concat_to_number st evs)))
   ≤ Z.of_nat (size (sessions st)) + count_events is_connection evs).
Proof.
  revert st. unfold count_events.
  induction evs as [|e evs IH]; intros st; cbn [run foldl].
  { cbn. lia. }
  specialize (IH (step concat_to_number st e)). unfold run in IH.
  pose proof (step_size st e) as Hstep. cbn [List.filter].
  destruct (is_connection e); cbn [length] in *; lia.
Qed.

Lemma step_sessions_have_sockets st e :
  (∀ k s, sessions st !! k = Some s → is_Some (sockets st !! ws s)) →
  ∀ k s, sessions (step concat_to_number st e) !! k = Some s →
    is_Some (sockets (step concat_to_number st e) !! ws s).
Proof.
  intros Hinv k s.
  destruct e as [c addr t1 t2 t3|c message now|c now|c|now].
  - destruct (on_connection_state c addr t1 t2 t3 st) as (-> & -> & _).
    rewrite lookup_insert_Some, lookup_insert_is_Some.
    intros [[_ <-]|[_ Hk]]; cbn; [by left|].
    destruct (decide (c = ws s)); [by left|right]. split; [done|]. eauto.
  - unfold step. cbn [handler].
    destruct (on_message_effect concat_to_number c message now st)
      as [Heq Hsock | so s0 Hso Hs _ Heq Hsock
          | so s0 data j r _ Hs _ _ _ _ _ newId Heq Hsock];
      rewrite Heq, Hsock.
    + apply Hinv.
    + rewrite lookup_insert_Some. intros [[_ <-]|[_ Hk]]; cbn; eauto.
    + rewrite lookup_alter_is_Some, lookup_insert_Some.
      intros [[_ <-]|[_ Hk]]; cbn; [eauto|].
      apply lookup_delete_Some in Hk as [_ Hk]. eauto.
  - rewrite (on_close_sessions concat_to_number),
      (on_close_sockets concat_to_number), lookup_alter_is_Some.
    repeat case_match; try apply Hinv.
    rewrite lookup_delete_Some. intros [_ Hk]. eauto.
  - destruct (on_error_state concat_to_number c st) as (Hs & Hsock & _).
    rewrite Hs, Hsock.
    repeat case_match; try apply Hinv.
    rewrite lookup_delete_Some. intros [_ Hk]. eauto.
  - intros Hk.
    assert (Hin : sessions st !! k = Some s).
    { by eapply lookup_weaken;
        [|apply (sweep_step_subseteq concat_to_number)]. }
    destruct (Hinv k s Hin) as [so Hso].
    destruct (sweep_keeps_ws_sessionId now st (ws s) so Hso) as (so' & -> & _).
    eauto.
Qed.

(** X20. In every state the server reaches from its start, each session
    of the registry belongs to a socket the server has accepted, so the
    sweep always has a connection to close for a session it evicts. *)
Theorem sessions_have_sockets (r : option R) evs k s :
  sessions (run concat_to_number (initial r) evs) !! k = Some s →
  is_Some (sockets (run concat_to_number (initial r) evs) !! ws s).
Proof.
  revert k s.
  assert (Hrun : ∀ st,
    (∀ k s, sessions st !! k = Some s → is_Some (sockets st !! ws s)) →
    ∀ k s, sessions (run concat_to_number st evs) !! k = Some s →
      is_Some (sockets (run concat_to_number st evs) !! ws s)).
  { induction evs as [|e evs IH]; intros st Hinv; [done|].
    cbn [run foldl]. apply IH. by apply step_sessions_have_sockets. }
  apply Hrun. intros k s Hk. cbn in Hk. by rewrite lookup_empty in Hk.
Qed.

(** *** A session whose key does not print *)

End Further.

(** * Properties of the surrounding code *)

(** *** Shutdown *)

(** X21. On [SIGINT] every socket the server holds has [ws.close()]
    applied, so none is left open; the handler itself removes no session
    and keeps the session id of every socket. *)
Theorem sigint_closes_every_socket {R : Type} `{!Robot R}
    (st : server (R:=R)) :
  let st' := on_sigint st in
  (∀ c so, sockets st' !! c = Some so → readyState so ≠ OPEN)
  ∧ (∀ c so, sockets st !! c = Some so →
       ∃ so', sockets st' !! c = Some so'
              ∧ ws_sessionId so' = ws_sessionId so)
  ∧ sessions st' = sessions st.
Proof.
  cbn. split; [|split; [|done]].
  - intros c so. rewrite lookup_fmap.
    destruct (sockets st !! c) as [so0|]; [|done]. intros [= <-].
    unfold ws_close. by destruct (readyState so0) eqn:E; cbn; rewrite ?E.
  - intros c so Hso. rewrite lookup_fmap, Hso. cbn. eexists. split; [done|].
    unfold ws_close. by destruct (readyState so).
Qed.

(** *** [getNetworkIP] *)

Lemma scan_ifaces_app l1 l2 :
  scan_ifaces (l1 ++ l2)
  = match scan_ifaces l1 with Some a => Some a | None => scan_ifaces l2 end.
Proof.
  induction l1 as [|i l1 IH]; [done|]. cbn. by destruct (external_ipv4 i).
Qed.

Lemma getNetworkIP_scan interfaces :
  getNetworkIP interfaces
  = default "localhost" (scan_ifaces (mjoin (snd <$> interfaces))).
Proof.
  induction interfaces as [|[name ifaces] rest IH]; [done|]. cbn.
  rewrite scan_ifaces_app. by destruct (scan_ifaces ifaces).
Qed.

(** X22. [getNetworkIP] returns the address of the first interface
    address, in the order of the interfaces and of their addresses, that
    is IPv4 and not internal, and ["localhost"] when there is none. *)
Theorem network_ip_is_first_external interfaces :
  let all := mjoin (snd <$> interfaces) in
  (Forall (λ i, external_ipv4 i = false) all →
     getNetworkIP interfaces = "localhost")
  ∧ (∀ before iface after,
       all = before ++ iface :: after →
       Forall (λ i, external_ipv4 i = false) before →
       external_ipv4 iface = true →
       getNetworkIP interfaces = address iface).
Proof.
  intros all. rewrite getNetworkIP_scan. fold all. split.
  - intros Hall. induction Hall as [|i l Hi _ IH]; [done|].
    cbn. by rewrite Hi.
  - intros before iface after -> Hbefore Hiface.
    induction Hbefore as [|i l Hi _ IH]; cbn.
    + by rewrite Hiface.
    + by rewrite Hi.
Qed.

(** *** [getFrontendOrigins] *)

Lemma split_comma_free piece :
  has_comma piece = false → split_comma piece = [piece].
Proof.
  induction piece as [|a piece IH]; [done|]. cbn [has_comma split_comma].
  destruct (Ascii.eqb a ","); [done|]. cbn [orb]. intros Hp. by rewrite IH.
Qed.

Lemma split_comma_app piece rest :
  has_comma piece = false →
  split_comma (piece +:+ String ","%char rest) = piece :: split_comma rest.
Proof.
  induction piece as [|a piece IH]; [done|].
  change (String a piece +:+ String ","%char rest)
    with (String a (piece +:+ String ","%char rest)).
  cbn [has_comma split_comma].
  destruct (Ascii.eqb a ","); [done|]. cbn [orb]. intros Hp. by rewrite IH.
Qed.

Lemma join_comma_cons piece piece' rest :
  join_comma (piece :: piece' :: rest)
  = piece +:+ String ","%char (join_comma (piece' :: rest)).
Proof. done. Qed.

Lemma split_comma_join pieces :
  pieces ≠ [] →
  Forall (λ piece, has_comma piece = false) pieces →
  split_comma (join_comma pieces) = pieces.
Proof.
  intros Hne Hfree. induction Hfree as [|piece rest Hp Hrest IH]; [done|].
  destruct rest as [|piece' rest].
  - cbn. by apply split_comma_free.
  - rewrite join_comma_cons, split_comma_app by done. f_equal. by apply IH.
Qed.

Section OriginsProperties.
Variable trim : string → string.

(** X23. Whatever the environment holds, the allowed origins start with
    the two localhost origins and end with the three deployment patterns;
    nothing comes in between exactly when [FRONTEND_ORIGINS] is unset or
    empty. *)
Theorem frontend_origins_defaults (env : option string) :
  ∃ extra,
    getFrontendOrigins trim env
    = default_origins ++ extra ++ deployment_patterns
    ∧ (extra = [] ↔ env = None ∨ env = Some "").
Proof.
  unfold getFrontendOrigins. destruct env as [s|].
  - destruct (String.eqb_spec s "") as [->|Hs]; cbn [negb].
    + exists []. split; [done|]. split; eauto.
    + eexists. split; [by rewrite <-app_assoc|]. split.
      * intros Hnil%fmap_nil_inv. by destruct s; cbn in Hnil; repeat case_match.
      * intros [?|[= ?]]; done.
  - exists []. split; [done|]. split; eauto.
Qed.

(** X24. A [FRONTEND_ORIGINS] that lists origins separated by commas adds
    exactly those origins, trimmed and in order, between the localhost
    origins and the deployment patterns. *)
Theorem frontend_origins_from_list (pieces : list string) :
  pieces ≠ [] →
  Forall (λ piece, has_comma piece = false) pieces →
  join_comma pieces ≠ "" →
  getFrontendOrigins trim (Some (join_comma pieces))
  = default_origins
    ++ ((λ piece, OriginString (trim piece)) <$> pieces)
    ++ deployment_patterns.
Proof.
  intros Hne Hfree Hjoin. unfold getFrontendOrigins.
  destruct (String.eqb_spec (join_comma pieces) "") as [|_]; [done|].
  cbn [negb]. by rewrite split_comma_join, <-app_assoc.
Qed.
End OriginsProperties.

(** *** The client *)

(** X25. A tap (touch start, then touch end before the long-press delay)
    on a connected page sends exactly one [click] and cancels the
    long-press timer it had started. *)
Theorem tap_sends_one_click (cl : client) (touch : point) :
  socket_state cl = Some OPEN →
  let cl' := client_run cl [TouchStart touch; TouchEnd] in
  sent cl' = sent cl ++ [msg_click]
  ∧ longPressTimer cl' = None
  ∧ timers cl' !! next_timer cl = None.
Proof.
  intros Hopen. destruct cl as [ss ic lt lp tm nt se].
  cbn in Hopen. subst ss. cbn.
  repeat split. by rewrite delete_insert_eq, lookup_delete_eq.
Qed.

(** X26. A long press sends [rightClick] when its timer fires, and the
    release that follows sends a [click] as well: the timer id is still
    stored when the touch ends. *)
Theorem long_press_release_also_clicks (cl : client) (touch : point) :
  socket_state cl = Some OPEN →
  let cl' :=
    client_run cl [TouchStart touch; TimerFires (next_timer cl); TouchEnd] in
  sent cl' = sent cl ++ [msg_rightClick; msg_click].
Proof.
  intros Hopen. destruct cl as [ss ic lt lp tm nt se].
  cbn in Hopen. subst ss. cbn. rewrite lookup_insert_eq. cbn.
  by rewrite <-app_assoc.
Qed.

Lemma handleTouchMove_connected cl touch :
  isConnected cl = true → socket_state cl = Some OPEN →
  let cl' := handleTouchMove touch cl in
  sent cl'
  = sent cl ++ [msg_move ((x touch - x (lastTouch cl)) * 2)
                         ((y touch - y (lastTouch cl)) * 2)]
  ∧ lastTouch cl' = touch
  ∧ isConnected cl' = true ∧ socket_state cl' = Some OPEN.
Proof.
  intros Hconn Hopen. unfold handleTouchMove. rewrite Hconn. cbn.
  unfold sendMessage. destruct (longPressTimer cl); cbn; by rewrite Hopen.
Qed.

Lemma last_cons_default {A} (l : list A) (a d : A) :
  List.last (a :: l) d = List.last l a.
Proof.
  revert a d. induction l as [|b l IH]; intros a d; [done|].
  change (List.last (a :: b :: l) d) with (List.last (b :: l) d).
  by rewrite !(IH b).
Qed.

Lemma drag_sent cl touches :
  isConnected cl = true → socket_state cl = Some OPEN →
  let cl' := client_run cl (TouchMove <$> touches) in
  sent cl' = sent cl ++ drag_messages (lastTouch cl) touches
  ∧ lastTouch cl' = List.last touches (lastTouch cl).
Proof.
  revert cl. induction touches as [|touch touches IH]; intros cl Hconn Hopen.
  { cbn. by rewrite app_nil_r. }
  destruct (handleTouchMove_connected cl touch Hconn Hopen)
    as (Hsent & Hlast & Hconn' & Hopen').
  destruct (IH (handleTouchMove touch cl) Hconn' Hopen') as [IH1 IH2].
  change (client_run cl (TouchMove <$> touch :: touches))
    with (client_run (handleTouchMove touch cl) (TouchMove <$> touches)).
  split.
  - rewrite IH1, Hsent, Hlast, <-app_assoc. done.
  - by rewrite IH2, Hlast, last_cons_default.
Qed.

Lemma get_prop_msg_move dx dy :
  get_prop (msg_move dx dy) "deltaX" = Some (Some (JNum dx))
  ∧ get_prop (msg_move dx dy) "deltaY" = Some (Some (JNum dy)).
Proof. done. Qed.

Lemma total_delta_drag from touches :
  total_delta "deltaX" (drag_messages from touches)
  = 2 * (x (List.last touches from) - x from)
  ∧ total_delta "deltaY" (drag_messages from touches)
    = 2 * (y (List.last touches from) - y from).
Proof.
  revert from. induction touches as [|touch touches IH]; intros from.
  { cbn. lia. }
  destruct (IH touch) as [IHx IHy].
  rewrite last_cons_default. cbn [drag_messages total_delta].
  destruct (get_prop_msg_move ((x touch - x from) * 2)
              ((y touch - y from) * 2)) as [-> ->].
  lia.
Qed.

(** X27. During a drag on a connected page every touch move sends the
    doubled step since the previous touch, so the deltas sent add up to
    twice the displacement of the finger from where the touch started. *)
Theorem drag_deltas_telescope (cl : client) (start : point)
    (touches : list point) :
  isConnected cl = true →
  socket_state cl = Some OPEN →
  let cl' := client_run cl (TouchStart start :: (TouchMove <$> touches)) in
  let finish := List.last touches start in
  sent cl' = sent cl ++ drag_messages start touches
  ∧ total_delta "deltaX" (drag_messages start touches)
    = 2 * (x finish - x start)
  ∧ total_delta "deltaY" (drag_messages start touches)
    = 2 * (y finish - y start)
  ∧ lastTouch cl' = finish.
Proof.
  intros Hconn Hopen cl' finish. subst cl' finish.
  change (client_run cl (TouchStart start :: (TouchMove <$> touches)))
    with (client_run (handleTouchStart start cl) (TouchMove <$> touches)).
  destruct (drag_sent (handleTouchStart start cl) touches) as [Hsent Hlast];
    [done..|].
  destruct (total_delta_drag start touches) as [Hx Hy].
  by rewrite Hsent, Hlast.
Qed.

(** X28. As long as the socket has not opened, nothing is sent: no
    gesture, timer or socket event other than the opening of the socket
    makes the page hand a message to a socket that is not open. *)
Theorem nothing_sent_before_open (cl : client) (evs : list client_event) :
  socket_state cl ≠ Some OPEN →
  WsOpen ∉ evs →
  let cl' := client_run cl evs in
  sent cl' = sent cl ∧ socket_state cl' ≠ Some OPEN.
Proof.
  revert cl. induction evs as [|e evs IH]; intros cl Hclosed Hevs; [done|].
  apply not_elem_of_cons in Hevs as [He Hevs].
  assert (Hsend : ∀ data cl0, socket_state cl0 ≠ Some OPEN →
    sendMessage data cl0 = cl0).
  { intros data cl0 Hcl0. unfold sendMessage.
    by destruct (socket_state cl0) as [[]|]. }
  assert (Hstep : sent (client_step cl e) = sent cl
                  ∧ socket_state (client_step cl e) ≠ Some OPEN).
  { destruct e as [touch|touch| |timer| | |]; cbn; try done.
    - unfold handleTouchMove. destruct (isConnected cl); cbn; [|done].
      destruct (longPressTimer cl); by rewrite Hsend.
    - unfold handleTouchEnd. destruct (longPressTimer cl); [|done].
      by rewrite Hsend.
    - destruct (timers cl !! timer) as [[]|]; cbn; try done.
      by rewrite Hsend. }
  destruct Hstep as [Hsent Hclosed'].
  destruct (IH (client_step cl e) Hclosed' Hevs) as [IH1 IH2].
  cbv zeta.
  change (client_run cl (e :: evs)) with (client_run (client_step cl e) evs).
  split; [by rewrite IH1|done].
Qed.

(** *** From the finger to the pointer *)

Section EndToEnd.
Context {R : Type} `{!Robot R} `{!RobotMoves R}.
Variable concat_to_number : Z → json → jsnum.

Lemma moves_in_range c now (st : server (R:=R)) so s r from touches :
  sockets st !! c = Some so →
  sessions st !! ws_sessionId so = Some s →
  key_prints (id s) = true →
  robot st = Some r →
  Forall (λ touch,
    0 ≤ x (getMousePos r) + 2 * (x touch - x from)
      ≤ width (getScreenSize r) - 1
    ∧ 0 ≤ y (getMousePos r) + 2 * (y touch - y from)
        ≤ height (getScreenSize r) - 1) touches →
  ∃ r',
    robot (run concat_to_number st
             ((λ m, Message c (Some m) now) <$> drag_messages from touches))
    = Some r'
    ∧ getScreenSize r' = getScreenSize r
    ∧ getMousePos r'
      = {| x := x (getMousePos r) + 2 * (x (List.last touches from) - x from);
           y := y (getMousePos r) + 2 * (y (List.last touches from) - y from) |}.
Proof.
  revert st s r from.
  induction touches as [|touch touches IH];
    intros st s r from Hso Hs Hid Hr Hin.
  { exists r. cbn. split; [done|]. split; [done|].
    destruct (getMousePos r). cbn. f_equal; lia. }
  apply Forall_cons in Hin as [[Hx Hy] Hin].
  set (dx := (x touch - x from) * 2). set (dy := (y touch - y from) * 2).
  destruct (step_move_in_range concat_to_number c dx dy now st so s r)
    as (r1 & Hst1 & Hscreen & Hpos); try done; try (subst dx dy; lia).
  cbn [drag_messages fmap list_fmap run foldl]. fold dx dy. rewrite Hst1.
  set (st1 := with_robot r1 _).
  destruct (IH st1 (set_lastActivity now s) r1 touch)
    as (r' & Hrun & Hsc & Hp).
  - exact Hso.
  - cbn. apply lookup_insert_eq.
  - exact Hid.
  - reflexivity.
  - rewrite Hpos, Hscreen. cbn [x y].
    eapply Forall_impl; [exact Hin|]. cbn. intros t [??]. lia.
  - exists r'. split; [exact Hrun|]. split; [by rewrite Hsc|].
    rewrite Hp, Hpos, last_cons_default. cbn [x y]. f_equal; lia.
Qed.

(** X29. The messages a drag produces on the page, received by the server
    from one registered client whose session id prints, move the pointer
    by twice the displacement of the finger, as long as every position on
    the way lies on the screen. *)
Theorem drag_moves_pointer_twice c now (st : server (R:=R)) so s r
    (start : point) (touches : list point) :
  sockets st !! c = Some so →
  sessions st !! ws_sessionId so = Some s →
  key_prints (id s) = true →
  robot st = Some r →
  Forall (λ touch,
    0 ≤ x (getMousePos r) + 2 * (x touch - x start)
      ≤ width (getScreenSize r) - 1
    ∧ 0 ≤ y (getMousePos r) + 2 * (y touch - y start)
        ≤ height (getScreenSize r) - 1) touches →
  let finish := List.last touches start in
  ∃ r',
    robot (run concat_to_number st
             ((λ m, Message c (Some m) now) <$> drag_messages start touches))
    = Some r'
    ∧ getMousePos r'
      = {| x := x (getMousePos r) + 2 * (x finish - x start);
           y := y (getMousePos r) + 2 * (y finish - y start) |}.
Proof.
  intros Hso Hs Hid Hr Hin finish.
  destruct (moves_in_range c now st so s r start touches Hso Hs Hid Hr Hin)
    as (r' & Hrun & _ & Hpos).
  by exists r'.
Qed.
End EndToEnd.


(** * Examples of the further properties *)

Lemma close_example :
  let st' := step stub_concat desk (Close 1%nat 5000) in
  sessions st' !! KStr "session_1_1000" = None
  ∧ (∀ k, k ≠ KStr "session_1_1000" → sessions st' !! k = sessions desk !! k)
  ∧ sockets st' !! 1%nat = Some (set_readyState CLOSED socket_1)
  ∧ (∀ c', c' ≠ 1%nat → sockets st' !! c' = sockets desk !! c')
  ∧ sessions (step stub_concat st' (Close 1%nat 6000)) = sessions st'.
Proof.
  refine (close_removes_only_own_session stub_concat 1%nat 5000 6000 desk
            socket_1 eq_refl _).
  intros s [= <-]. reflexivity.
Defined.

Lemma error_example :
  let st' := step stub_concat desk (Error 1%nat) in
  sessions st' = delete (KStr "session_1_1000") (sessions desk)
  ∧ sockets st' = sockets desk
  ∧ connectedClients st' = connectedClients desk
  ∧ robot st' = robot desk.
Proof.
  exact (error_removes_session_only stub_concat 1%nat desk socket_1
           eq_refl eq_refl eq_refl).
Defined.

Lemma generated_id_example : (7 : Z) = 7 ∧ (1000 : Z) = 1000.
Proof.
  apply (generated_id_inj 7 7 1000 1000); [lia | lia | reflexivity].
Defined.

Lemma sweep_filter_example :
  sessions (step stub_concat idle_desk (Sweep 1801500))
  = filter (λ kv, ¬ expired 1801500 kv.2) (sessions idle_desk).
Proof.
  apply (sweep_is_filter stub_concat 1801500 idle_desk).
  - apply (bool_decide_unpack (order_ok idle_desk)). vm_compute. exact I.
  - apply (bool_decide_unpack (expired_keys_print 1801500 idle_desk)).
    vm_compute. exact I.
Defined.

Lemma sweep_report_example :
  last (console (step stub_concat idle_desk (Sweep 1801500)))
  = Some (LogCleaned 1 1%nat).
Proof.
  assert (Hprint : expired_keys_print 1801500 idle_desk).
  { apply (bool_decide_unpack (expired_keys_print 1801500 idle_desk)).
    vm_compute. exact I. }
  destruct (sweep_reports_evictions stub_concat 1801500 idle_desk Hprint)
    as (_ & _ & Hreport).
  apply Hreport. vm_compute. lia.
Defined.

Lemma sweep_twice_example :
  step stub_concat (step stub_concat idle_desk (Sweep 1801500)) (Sweep 1801500)
  = step stub_concat idle_desk (Sweep 1801500).
Proof.
  apply (sweep_is_idempotent stub_concat 1801500 1801500 idle_desk).
  - apply (bool_decide_unpack (order_ok idle_desk)). vm_compute. exact I.
  - apply (bool_decide_unpack (expired_keys_print 1801500 idle_desk)).
    vm_compute. exact I.
  - lia.
Defined.


Lemma evicted_ignored_example :
  let st' := step stub_concat idle_desk (Sweep 1801500) in
  on_message stub_concat 1%nat (Some (msg_move 10 0)) 1802000 st'
  = (Normal tt, st').
Proof.
  apply (evicted_session_commands_are_ignored stub_concat 1%nat
           (msg_move 10 0) 1802000 1801500 idle_desk socket_1 session_1).
  - apply (bool_decide_unpack (order_ok idle_desk)). vm_compute. exact I.
  - apply (bool_decide_unpack (expired_keys_print 1801500 idle_desk)).
    vm_compute. exact I.
  - reflexivity.
  - reflexivity.
  - reflexivity.
Defined.

Lemma scroll_example :
  let call :=
    scrollMouse (Some (JNum 0)) (Some (JNum 3)) (stub_at 1920 1080 500 500) in
  ∃ st' r',
    on_message stub_concat 1%nat (Some msg_scroll_down) 3000 desk
    = (Normal tt, st')
    ∧ robot st' = Some r'
    ∧ (call = Returns r'
         ∧ console st'
           = console desk
             ++ [LogReceived (KStr "session_1_1000") (Some (JStr "scroll"));
                 LogScroll (KStr "session_1_1000") None (Some (JNum 3))]
       ∨ call = Throws r'
         ∧ console st'
           = console desk
             ++ [LogReceived (KStr "session_1_1000") (Some (JStr "scroll"));
                 LogErrorProcessing]).
Proof.
  exact (scroll_defaults_to_zero stub_concat 1%nat msg_scroll_down 3000 desk
           socket_1 session_1 (stub_at 1920 1080 500 500) None
           (Some (JNum 3))
           eq_refl eq_refl eq_refl eq_refl eq_refl eq_refl eq_refl eq_refl
           eq_refl).
Defined.

Lemma right_click_example :
  ∃ st' r',
    on_message stub_concat 1%nat (Some msg_rightClick) 3000 desk
    = (Normal tt, st')
    ∧ robot st' = Some r'
    ∧ (mouseClick (Some "right") (stub_at 1920 1080 500 500) = Returns r'
         ∧ console st'
           = console desk
             ++ [LogReceived (KStr "session_1_1000") (Some (JStr "rightClick"));
                 LogRightClick (KStr "session_1_1000")]
       ∨ mouseClick (Some "right") (stub_at 1920 1080 500 500) = Throws r'
         ∧ console st'
           = console desk
             ++ [LogReceived (KStr "session_1_1000") (Some (JStr "rightClick"));
                 LogErrorProcessing]).
Proof.
  exact (clicks_reach_capability stub_concat 1%nat msg_rightClick 3000 desk
           socket_1 session_1 (stub_at 1920 1080 500 500) true
           eq_refl eq_refl eq_refl eq_refl eq_refl).
Defined.

Lemma ping_example :
  on_message stub_concat 1%nat (Some msg_ping) 3000 desk
  = (Normal tt,
     console_log (LogReceived (KStr "session_1_1000") (Some (JStr "ping")))
       (with_sessions
          (insert (KStr "session_1_1000") (set_lastActivity 3000 session_1))
          desk)).
Proof.
  exact (unknown_type_is_dropped stub_concat 1%nat msg_ping
           (Some (JStr "ping")) 3000 desk socket_1 session_1
           (stub_at 1920 1080 500 500)
           eq_refl eq_refl eq_refl eq_refl eq_refl eq_refl eq_refl).
Defined.

(** The second move runs into the right edge: the result is the clamp of
    the sum. *)
Lemma moves_add_up_example :
  ∃ r',
    robot (run stub_concat desk
             [Message 1%nat (Some (msg_move 10 (-5))) 3000;
              Message 1%nat (Some (msg_move 5000 20)) 3001]) = Some r'
    ∧ getMousePos r' = {| x := 1919; y := 515 |}.
Proof.
  exact (moves_add_up stub_concat 1%nat 10 (-5) 5000 20 3000 3001 desk
           socket_1 session_1 (stub_at 1920 1080 500 500)
           eq_refl eq_refl eq_refl eq_refl
           ltac:(cbv; split; discriminate) ltac:(cbv; split; discriminate)).
Defined.

Lemma connect_close_example :
  sessions (run stub_concat desk
              [Connection 3%nat "10.0.0.3" 3000 3000 3000; Close 3%nat 4000])
  = sessions desk.
Proof.
  exact (connect_then_close_restores_registry stub_concat 3%nat "10.0.0.3"
           3000 3000 3000 4000 desk eq_refl).
Defined.

Lemma rename_close_example :
  sessions (run stub_concat desk
              [Message 1%nat (Some (msg_setSessionId "client_abcd")) 3000;
               Close 1%nat 4000])
  = delete (KStr "client_abcd") (delete (KStr "session_1_1000") (sessions desk)).
Proof.
  exact (rename_then_close_leaves_no_record stub_concat 1%nat
           (msg_setSessionId "client_abcd") (JStr "client_abcd") 3000 4000
           desk socket_1 session_1 (stub_at 1920 1080 500 500)
           eq_refl eq_refl eq_refl eq_refl eq_refl eq_refl eq_refl eq_refl).
Defined.

Lemma collision_close_example :
  let renamed :=
    step stub_concat desk
      (Message 1%nat (Some (msg_setSessionId "session_2_2000")) 3000) in
  let st' := step stub_concat renamed (Close 2%nat 4000) in
  sessions renamed !! KStr "session_2_2000"
  = Some (set_id (KStr "session_2_2000") (set_lastActivity 3000 session_1))
  ∧ sessions st' !! KStr "session_2_2000" = None
  ∧ sessions st' !! KStr "session_1_1000" = None
  ∧ sockets st' !! 1%nat
    = Some (set_ws_sessionId (KStr "session_2_2000") socket_1).
Proof.
  refine (collision_then_close_removes_renamer stub_concat 1%nat 2%nat
            (msg_setSessionId "session_2_2000") (JStr "session_2_2000")
            3000 4000 desk socket_1 socket_2 session_1
            (stub_at 1920 1080 500 500)
            _ eq_refl eq_refl eq_refl eq_refl eq_refl eq_refl eq_refl eq_refl
            eq_refl eq_refl).
  discriminate.
Defined.

Lemma rename_own_id_example :
  let st' :=
    step stub_concat desk
      (Message 1%nat (Some (msg_setSessionId "session_1_1000")) 3000) in
  sessions st'
  = <[KStr "session_1_1000" := set_lastActivity 3000 session_1]> (sessions desk)
  ∧ sockets st' = sockets desk.
Proof.
  exact (rename_to_own_id_is_touch stub_concat 1%nat
           (msg_setSessionId "session_1_1000") (JStr "session_1_1000") 3000
           desk socket_1 session_1 (stub_at 1920 1080 500 500)
           eq_refl eq_refl eq_refl eq_refl eq_refl eq_refl eq_refl eq_refl).
Defined.

Lemma session_socket_example : is_Some (sockets desk !! 1%nat).
Proof.
  exact (sessions_have_sockets stub_concat (Some (stub_at 1920 1080 500 500))
           [Connection 1%nat "10.0.0.1" 1000 1000 1000;
            Connection 2%nat "10.0.0.2" 2000 2000 2000]
           (KStr "session_1_1000") session_1 eq_refl).
Defined.

Lemma sigint_example :
  sockets (on_sigint desk) !! 1%nat = Some (set_readyState CLOSING socket_1)
  ∧ sessions (on_sigint desk) = sessions desk.
Proof.
  destruct (sigint_closes_every_socket desk) as (_ & _ & Hsessions).
  split; [reflexivity | exact Hsessions].
Defined.

Lemma network_ip_example : getNetworkIP lan_interfaces = "192.168.1.20".
Proof.
  destruct (network_ip_is_first_external lan_interfaces) as [_ Hfirst].
  apply (Hfirst
           [{| family := "IPv4"; internal := true; address := "127.0.0.1" |};
            {| family := "IPv6"; internal := false; address := "fe80::1" |}]
           {| family := "IPv4"; internal := false; address := "192.168.1.20" |}
           [{| family := "IPv4"; internal := false; address := "10.0.0.5" |}]);
    [reflexivity | by repeat constructor | reflexivity].
Defined.

Lemma frontend_origins_example :
  getFrontendOrigins (λ s, s)
    (Some "https://a.example,https://b.example")
  = default_origins
    ++ [OriginString "https://a.example"; OriginString "https://b.example"]
    ++ deployment_patterns.
Proof.
  apply (frontend_origins_from_list (λ s, s)
           ["https://a.example"; "https://b.example"]);
    [discriminate | by repeat constructor | discriminate].
Defined.

Lemma tap_example :
  let cl' :=
    client_run connected_page [TouchStart {| x := 40; y := 60 |}; TouchEnd] in
  sent cl' = sent connected_page ++ [msg_click]
  ∧ longPressTimer cl' = None
  ∧ timers cl' !! next_timer connected_page = None.
Proof.
  exact (tap_sends_one_click connected_page {| x := 40; y := 60 |} eq_refl).
Defined.

Lemma long_press_example :
  sent (client_run connected_page
          [TouchStart {| x := 40; y := 60 |}; TimerFires 1%positive; TouchEnd])
  = [msg_rightClick; msg_click].
Proof.
  exact (long_press_release_also_clicks connected_page
           {| x := 40; y := 60 |} eq_refl).
Defined.

Lemma drag_example :
  let touches := [{| x := 110; y := 100 |}; {| x := 120; y := 105 |}] in
  let cl' :=
    client_run connected_page
      (TouchStart {| x := 100; y := 100 |} :: (TouchMove <$> touches)) in
  sent cl' = [msg_move 20 0; msg_move 20 10]
  ∧ total_delta "deltaX" [msg_move 20 0; msg_move 20 10] = 2 * (120 - 100)
  ∧ total_delta "deltaY" [msg_move 20 0; msg_move 20 10] = 2 * (105 - 100)
  ∧ lastTouch cl' = {| x := 120; y := 105 |}.
Proof.
  exact (drag_deltas_telescope connected_page {| x := 100; y := 100 |}
           [{| x := 110; y := 100 |}; {| x := 120; y := 105 |}]
           eq_refl eq_refl).
Defined.

Lemma before_open_example :
  let cl' :=
    client_run (connect new_client)
      [TouchStart {| x := 40; y := 60 |}; TouchEnd; WsClose] in
  sent cl' = [] ∧ socket_state cl' ≠ Some OPEN.
Proof.
  apply (nothing_sent_before_open (connect new_client)
           [TouchStart {| x := 40; y := 60 |}; TouchEnd; WsClose]).
  - discriminate.
  - intros Hin. repeat (apply elem_of_cons in Hin as [Hin|Hin];
                        [discriminate|]).
    by apply elem_of_nil in Hin.
Defined.

Lemma drag_pointer_example :
  ∃ r',
    robot (run stub_concat desk
             ((λ m, Message 1%nat (Some m) 3000)
                <$> drag_messages {| x := 100; y := 100 |}
                      [{| x := 110; y := 100 |}; {| x := 120; y := 105 |}]))
    = Some r'
    ∧ getMousePos r' = {| x := 540; y := 510 |}.
Proof.
  exact (drag_moves_pointer_twice stub_concat 1%nat 3000 desk socket_1
           session_1 (stub_at 1920 1080 500 500) {| x := 100; y := 100 |}
           [{| x := 110; y := 100 |}; {| x := 120; y := 105 |}]
           eq_refl eq_refl eq_refl eq_refl
           ltac:(repeat (constructor; [cbn; lia|]); constructor)).
Defined.

